(** * pdf_chapter_splitter: outline flattening, page ranges, file naming

    A shallow embedding of [pdf_chapter_splitter.py].  Python integers are
    [Z], strings are [string], lists are [list]; the dictionaries built by
    the program always carry the same keys and are records here.  The
    [print] calls of the program are collected as a list of diagnostics. *)

From Stdlib Require Import ZArith List Bool String Ascii Lia Arith.
From Stdlib Require Import Sorting.Sorted Sorting.Permutation.
Import ListNotations.

Set Warnings "-register-all".

Local Open Scope string_scope.
Local Open Scope list_scope.
Local Open Scope Z_scope.

(** ** Data *)

(** One entry of [outline_info]:
    [{"title": .., "page_index": .., "full_path_name": ..}]. *)
Record Bookmark : Type := mkBookmark {
  title : string;
  page_index : Z;
  full_path_name : string
}.

(** One entry of [sections]. *)
Record Section_ : Type := mkSection {
  name : string;
  sec_full_path_name : string;
  start_page : Z;
  end_page : Z
}.

(** ** [calculate_page_ranges] *)

(** [outline_info.sort(key=lambda x: x["page_index"])]: Python's sort is
    stable, so an element goes in front of the elements already placed
    that have the same key. *)
Fixpoint insert_by_page (x : Bookmark) (l : list Bookmark) : list Bookmark :=
  match l with
  | [] => [x]
  | y :: l' =>
      if page_index x <=? page_index y then x :: y :: l'
      else y :: insert_by_page x l'
  end.

Fixpoint sort_by_page (l : list Bookmark) : list Bookmark :=
  match l with
  | [] => []
  | x :: l' => insert_by_page x (sort_by_page l')
  end.

(** [enumerate(l)], counting from [i]. *)
Fixpoint enumerate_from {A : Type} (i : nat) (l : list A) : list (nat * A) :=
  match l with
  | [] => []
  | x :: l' => (i, x) :: enumerate_from (S i) l'
  end.

Definition enumerate {A : Type} (l : list A) : list (nat * A) :=
  enumerate_from 0 l.

(** The body of the [for i, item in enumerate(outline_info)] loop: the
    sections it appends for the item at position [i]. *)
Definition section_at (outline_info : list Bookmark) (total_pages : Z)
    (i : nat) (item : Bookmark) : list Section_ :=
  let start_index := page_index item in
  let end_index :=
    if (i + 1 <? List.length outline_info)%nat then
      match nth_error outline_info (i + 1) with
      | Some next => page_index next - 1
      | None => total_pages - 1
      end
    else total_pages - 1 in
  if start_index <=? end_index then
    [mkSection (title item) (full_path_name item)
               (start_index + 1) (end_index + 1)]
  else if (i =? List.length outline_info - 1)%nat then
    [mkSection (title item) (full_path_name item)
               (start_index + 1) total_pages]
  else [].

Definition ranges_of_sorted (sorted : list Bookmark) (total_pages : Z)
    : list Section_ :=
  flat_map (fun p => section_at sorted total_pages (fst p) (snd p))
           (enumerate sorted).

Definition calculate_page_ranges (outline_info : list Bookmark)
    (total_pages : Z) : list Section_ :=
  ranges_of_sorted (sort_by_page outline_info) total_pages.

(** The same loop written by recursion on the sorted list: the item in
    front, looking at the one behind it. *)
Definition section_of (item : Bookmark) (rest : list Bookmark)
    (total_pages : Z) : list Section_ :=
  let start_index := page_index item in
  let end_index :=
    match rest with
    | next :: _ => page_index next - 1
    | [] => total_pages - 1
    end in
  if start_index <=? end_index then
    [mkSection (title item) (full_path_name item)
               (start_index + 1) (end_index + 1)]
  else match rest with
       | [] => [mkSection (title item) (full_path_name item)
                          (start_index + 1) total_pages]
       | _ :: _ => []
       end.

Fixpoint ranges_from (l : list Bookmark) (total_pages : Z) : list Section_ :=
  match l with
  | [] => []
  | item :: rest => section_of item rest total_pages ++ ranges_from rest total_pages
  end.

(** Page order, as the sort leaves it. *)
Definition page_le (a b : Bookmark) : Prop := page_index a <= page_index b.

(** [s'] starts right behind [s]. *)
Definition follows_on (s s' : Section_) : Prop :=
  start_page s < start_page s' /\ end_page s = start_page s' - 1.

(** ** [get_pdf_outline_info] *)

(** The diagnostics the program prints. *)
Inductive Diagnostic : Type :=
| InvalidBookmark (bookmark_title err : string)
| InvalidRange (section_name : string) (first_page last_page : Z).

(** What [reader.get_page_number(item.page)] does: it returns a page
    index, returns [None], or raises. *)
Inductive Resolution : Type :=
| Returns (page : option Z)
| Raises (err : string).

(** An entry of the flattened outline before the caller's filter: its
    [page_index] may be [None]. *)
Record OutlineEntry : Type := mkEntry {
  entry_title : string;
  entry_page_index : option Z;
  entry_full_path_name : string
}.

Section Outline.

Variable PageRef : Type.

(** [reader.outline]: a list whose elements are destinations or nested
    lists; a nested list holds the children of the destination in front
    of it. *)
Inductive OutlineItem : Type :=
| Destination (item_title : string) (page : PageRef)
| SubOutline (items : list OutlineItem).

Variable get_page_number : PageRef -> Resolution.

(** [f"{parent_path} - {title}" if parent_path else title] *)
Definition join_path (parent_path item_title : string) : string :=
  if String.eqb parent_path "" then item_title
  else (parent_path ++ " - " ++ item_title)%string.

Definition may_descend (current_level max_level : Z) : bool :=
  (max_level =? 0) || (current_level <? max_level).

Definition Flat : Type := (list OutlineEntry * list Diagnostic)%type.

Definition flat_app (a b : Flat) : Flat := (fst a ++ fst b, snd a ++ snd b).

(** The [while i < len(outline)] loop.  A destination whose page resolves
    is appended, and a nested list right behind it is consumed with it
    (flattened when the level allows).  When the resolver raises, the
    handler prints and the loop moves on by one element.  An element that
    is not a destination is passed over. *)
Fixpoint walk (max_level : Z) (it : OutlineItem) (current_level : Z)
    (parent_path : string) {struct it} : Flat :=
  match it with
  | Destination _ _ => ([], [])
  | SubOutline outline =>
      (fix loop (outline : list OutlineItem) {struct outline} : Flat :=
         match outline with
         | [] => ([], [])
         | Destination t p :: rest =>
             match get_page_number p with
             | Returns pg =>
                 let full := join_path parent_path t in
                 let own : Flat := ([mkEntry t pg full], []) in
                 match rest with
                 | (SubOutline _ as sub) :: rest' =>
                     flat_app own
                       (flat_app
                          (if may_descend current_level max_level
                           then walk max_level sub (current_level + 1) full
                           else ([], []))
                          (loop rest'))
                 | _ => flat_app own (loop rest)
                 end
             | Raises e =>
                 flat_app ([], [InvalidBookmark t e]) (loop rest)
             end
         | SubOutline _ :: rest => loop rest
         end) outline
  end.

Definition get_pdf_outline_info (outline : list OutlineItem)
    (current_level max_level : Z) (parent_path : string) : Flat :=
  walk max_level (SubOutline outline) current_level parent_path.

(** No nested list behind the destination. *)
Definition no_leading_sub (rest : list OutlineItem) : Prop :=
  match rest with
  | SubOutline _ :: _ => False
  | _ => True
  end.

End Outline.

Arguments Destination {PageRef} item_title page.
Arguments SubOutline {PageRef} items.
Arguments walk {PageRef} get_page_number max_level it current_level parent_path.
Arguments get_pdf_outline_info {PageRef} get_page_number outline
  current_level max_level parent_path.
Arguments no_leading_sub {PageRef} rest.

(** The caller's filter,
    [[item for item in outline_info if item["page_index"] is not None]]. *)
Definition resolved_bookmarks (entries : list OutlineEntry) : list Bookmark :=
  flat_map
    (fun e =>
       match entry_page_index e with
       | Some p => [mkBookmark (entry_title e) p (entry_full_path_name e)]
       | None => []
       end)
    entries.

(** ** The outline as a tree *)

Section OutlineTree.

Variable PageRef : Type.

(** A bookmark with its children, in order. *)
Inductive OutlineNode : Type :=
| Node (node_title : string) (target : PageRef) (children : list OutlineNode).

(** The list PyPDF2 hands out for a tree: every node as a destination,
    and behind a node with children the nested list of its children. *)
Fixpoint encode (n : OutlineNode) : list (OutlineItem PageRef) :=
  match n with
  | Node t p cs =>
      Destination t p ::
      match cs with
      | [] => []
      | _ :: _ => [SubOutline (flat_map encode cs)]
      end
  end.

Definition encode_forest (forest : list OutlineNode)
    : list (OutlineItem PageRef) :=
  flat_map encode forest.

Variable resolve : PageRef -> option Z.

(** The flattening as the documentation describes it, on the tree:
    depth-first pre-order within the depth limit, the node's own entry
    first, then the entries of its children in sibling order.  The path
    name is the parent's path joined to the title, or the title alone
    when the parent's path is empty. *)
Fixpoint preorder (max_level : Z) (n : OutlineNode) (current_level : Z)
    (parent_path : string) : list OutlineEntry :=
  match n with
  | Node t p cs =>
      let full := join_path parent_path t in
      mkEntry t (resolve p) full ::
      (if may_descend current_level max_level
       then flat_map (fun c => preorder max_level c (current_level + 1) full) cs
       else [])
  end.

Definition preorder_forest (max_level : Z) (forest : list OutlineNode)
    (current_level : Z) (parent_path : string) : list OutlineEntry :=
  flat_map (fun n => preorder max_level n current_level parent_path) forest.

(** The same walk with the naming rule tied to the level instead: the
    title alone for a top-level node ([parent = None]), the parent's path
    joined to the title below. *)
Fixpoint preorder_top_level_rule (max_level : Z) (n : OutlineNode)
    (current_level : Z) (parent : option string) : list OutlineEntry :=
  match n with
  | Node t p cs =>
      let full :=
        match parent with
        | None => t
        | Some parent_path => (parent_path ++ " - " ++ t)%string
        end in
      mkEntry t (resolve p) full ::
      (if may_descend current_level max_level
       then flat_map
              (fun c => preorder_top_level_rule max_level c
                          (current_level + 1) (Some full)) cs
       else [])
  end.

(** The walk of the encoding of one node, with more items behind it. *)
Definition walk_is_preorder (max_level : Z) (n : OutlineNode) : Prop :=
  forall lvl parent tail,
    no_leading_sub tail ->
    get_pdf_outline_info (fun p => Returns (resolve p)) (encode n ++ tail)
                         lvl max_level parent
    = flat_app (preorder max_level n lvl parent, [])
               (get_pdf_outline_info (fun p => Returns (resolve p)) tail
                                     lvl max_level parent).

End OutlineTree.

Arguments Node {PageRef} node_title target children.
Arguments encode {PageRef} n.
Arguments encode_forest {PageRef} forest.
Arguments preorder {PageRef} resolve max_level n current_level parent_path.
Arguments preorder_forest {PageRef} resolve max_level forest current_level
  parent_path.
Arguments preorder_top_level_rule {PageRef} resolve max_level n current_level
  parent.
Arguments walk_is_preorder {PageRef} resolve max_level n.

(** ** [perform_pdf_split] *)

(** [str(n)] for a natural number: decimal digits, most significant
    first.  The fuel bounds the number of digits. *)
Definition digit_char (d : nat) : ascii := ascii_of_nat (48 + d).

Fixpoint str_fuel (fuel n : nat) (acc : string) : string :=
  match fuel with
  | O => acc
  | S fuel' =>
      let acc' := String (digit_char (n mod 10)) acc in
      match (n / 10)%nat with
      | O => acc'
      | S _ as q => str_fuel fuel' q acc'
      end
  end.

Definition str (n : nat) : string := str_fuel (S n) n "".

Fixpoint zeros (k : nat) : string :=
  match k with
  | O => ""
  | S k' => String "0" (zeros k')
  end.

(** [f"{k:0{width}d}"] for [k >= 0]: at least [width] characters, filled
    with zeros on the left. *)
Definition format_index (k width : nat) : string :=
  (zeros (width - String.length (str k)) ++ str k)%string.

(** The character class of the [re.sub] call: backslash, slash, colon,
    star, question mark, double quote (code 34), less-than, greater-than
    and vertical bar. *)
Definition illegal_chars : list ascii :=
  ["\"; "/"; ":"; "*"; "?"; "034"; "<"; ">"; "|"]%char.

Definition is_illegal (c : ascii) : bool :=
  existsb (Ascii.eqb c) illegal_chars.

Fixpoint clean_name (s : string) : string :=
  match s with
  | EmptyString => EmptyString
  | String c s' =>
      if is_illegal c then clean_name s' else String c (clean_name s')
  end.

(** [range(lo, hi)] *)
Definition range (lo hi : Z) : list Z :=
  map (fun k => lo + Z.of_nat k) (seq 0 (Z.to_nat (hi - lo))).

Section Split.

Variable Page : Type.
Variable Path : Type.

(** A file written by the program: its name and the pages added to its
    writer, in order. *)
Record OutputFile : Type := mkOutput {
  filename : string;
  file_pages : list Page
}.

(** [reader.pages[page_num]] as the list of pages it adds to the writer. *)
Definition page_at (pages : list Page) (page_num : Z) : list Page :=
  match nth_error pages (Z.to_nat page_num) with
  | Some pg => [pg]
  | None => []
  end.

(** [for page_num in range(lo, hi): writer.add_page(reader.pages[page_num])];
    the loop runs only behind the range check, which keeps every
    [page_num] inside [reader.pages]. *)
Definition copy_pages (pages : list Page) (lo hi : Z) : list Page :=
  flat_map (page_at pages) (range lo hi).

Definition invalid_range (pages : list Page) (section : Section_) : bool :=
  let start_page_index := start_page section - 1 in
  let end_page_index := end_page section - 1 in
  (start_page_index <? 0)
  || (end_page_index >=? Z.of_nat (List.length pages))
  || (start_page_index >? end_page_index).

Definition output_filename (num_digits : nat) (add_sequence : bool)
    (max_level : Z) (i : nat) (section : Section_) : string :=
  let name_to_clean :=
    if negb (max_level =? 1) then sec_full_path_name section
    else name section in
  let cleaned_name := clean_name name_to_clean in
  if add_sequence then
    ((format_index (i + 1) num_digits ++ "_") ++ cleaned_name ++ ".pdf")%string
  else (cleaned_name ++ ".pdf")%string.

(** The body of the [for i, section in enumerate(sections)] loop. *)
Definition split_section (pages : list Page) (num_digits : nat)
    (add_sequence : bool) (max_level : Z) (i : nat) (section : Section_)
    : list OutputFile * list Diagnostic :=
  if invalid_range pages section then
    ([], [InvalidRange (sec_full_path_name section)
                       (start_page section) (end_page section)])
  else
    ([mkOutput (output_filename num_digits add_sequence max_level i section)
               (copy_pages pages (start_page section - 1)
                           (end_page section - 1 + 1))],
     []).

(** What the loop writes and prints when nothing raises on the way. *)
Definition split_plan (pages : list Page) (sections : list Section_)
    (add_sequence : bool) (max_level : Z)
    : list OutputFile * list Diagnostic :=
  let total_sections := List.length sections in
  let num_digits := String.length (str total_sections) in
  let results :=
    map (fun p => split_section pages num_digits add_sequence max_level
                                (fst p) (snd p))
        (enumerate sections) in
  (List.concat (map fst results), List.concat (map snd results)).

(** The file system as the program meets it: whether
    [os.makedirs(output_dir, exist_ok=True)] raises, and whether opening
    or writing the file of the section at position [i] under its name
    raises. *)
Record FileSystem : Type := mkFileSystem {
  makedirs_raises : Path -> option string;
  write_raises : Path -> nat -> string -> option string
}.

(** A run of [perform_pdf_split]: the files written, in the order of
    the writes (a file whose opening or writing raised is not among
    them, and a later file of the same name replaces an earlier one on
    disk), the diagnostics printed, and the exception the run ends with,
    if any. *)
Record SplitRun : Type := mkRun {
  written : list OutputFile;
  reported : list Diagnostic;
  raised : option string
}.

(** The [for i, section in enumerate(sections)] loop.  A section with an
    invalid range is reported and skipped.  Nothing in the loop catches
    an exception: when opening or writing a file raises, the loop ends
    there, and the sections behind get neither a file nor a
    diagnostic. *)
Fixpoint split_loop (fs : FileSystem) (output_dir : Path) (pages : list Page)
    (num_digits : nat) (add_sequence : bool) (max_level : Z)
    (todo : list (nat * Section_)) : SplitRun :=
  match todo with
  | [] => mkRun [] [] None
  | (i, section) :: todo' =>
      if invalid_range pages section then
        let run :=
          split_loop fs output_dir pages num_digits add_sequence max_level
                     todo' in
        mkRun (written run)
              (InvalidRange (sec_full_path_name section)
                            (start_page section) (end_page section)
               :: reported run)
              (raised run)
      else
        let output_filename :=
          output_filename num_digits add_sequence max_level i section in
        match write_raises fs output_dir i output_filename with
        | Some e => mkRun [] [] (Some e)
        | None =>
            let run :=
              split_loop fs output_dir pages num_digits add_sequence max_level
                         todo' in
            mkRun (mkOutput output_filename
                            (copy_pages pages (start_page section - 1)
                                        (end_page section - 1 + 1))
                   :: written run)
                  (reported run)
                  (raised run)
        end
  end.

Definition perform_pdf_split (fs : FileSystem) (pages : list Page)
    (sections : list Section_) (output_dir : Path) (add_sequence : bool)
    (max_level : Z) : SplitRun :=
  match makedirs_raises fs output_dir with
  | Some e => mkRun [] [] (Some e)
  | None =>
      let total_sections := List.length sections in
      let num_digits := String.length (str total_sections) in
      split_loop fs output_dir pages num_digits add_sequence max_level
                 (enumerate sections)
  end.

End Split.

Arguments mkOutput {Page} filename file_pages.
Arguments filename {Page} o.
Arguments file_pages {Page} o.
Arguments page_at {Page} pages page_num.
Arguments copy_pages {Page} pages lo hi.
Arguments invalid_range {Page} pages section.
Arguments split_section {Page} pages num_digits add_sequence max_level i section.
Arguments split_plan {Page} pages sections add_sequence max_level.
Arguments mkFileSystem {Path} makedirs_raises write_raises.
Arguments makedirs_raises {Path} f.
Arguments write_raises {Path} f.
Arguments mkRun {Page} written reported raised.
Arguments written {Page} s.
Arguments reported {Page} s.
Arguments raised {Page} s.
Arguments split_loop {Page Path} fs output_dir pages num_digits add_sequence
  max_level todo.
Arguments perform_pdf_split {Page Path} fs pages sections output_dir
  add_sequence max_level.

(** [int(s)] for a string of decimal digits. *)
Fixpoint int_acc (s : string) (acc : nat) : nat :=
  match s with
  | EmptyString => acc
  | String c s' => int_acc s' (10 * acc + (nat_of_ascii c - 48))%nat
  end.

Definition int (s : string) : nat := int_acc s 0.

(** The 1-based page numbers of a section, [start_page] to [end_page]. *)
Definition section_page_numbers (s : Section_) : list Z :=
  range (start_page s) (end_page s + 1).

(** ** Readings of the documentation that the program does not follow *)

(** The reading under which the first bookmark of a page shared by two
    bookmarks keeps a range once a later page follows. *)
Definition first_of_duplicates_kept (sorted : list Bookmark) (total_pages : Z)
    : Prop :=
  forall pre a b c post,
    sorted = pre ++ a :: b :: c :: post ->
    page_index a = page_index b ->
    page_index b < page_index c ->
    exists s, In s (section_at sorted total_pages (List.length pre) a)
              /\ start_page s <= end_page s.

(** The reading under which a first bookmark on page index 0 and no
    dropped item are enough for the sections to cover the document. *)
Definition covers_when_contiguous (outline_info : list Bookmark)
    (total_pages : Z) : Prop :=
  (exists first rest,
      sort_by_page outline_info = first :: rest /\ page_index first = 0) ->
  List.length (calculate_page_ranges outline_info total_pages)
  = List.length outline_info ->
  List.concat (map section_page_numbers
                   (calculate_page_ranges outline_info total_pages))
  = range 1 (total_pages + 1).

(** The reading under which the children of a node whose page cannot be
    resolved are flattened all the same. *)
Definition children_still_flattened {PageRef : Type}
    (get_page_number : PageRef -> Resolution)
    (outline : list (OutlineItem PageRef)) (max_level : Z) : Prop :=
  forall pre t p children rest e,
    outline = pre ++ Destination t p :: SubOutline children :: rest ->
    get_page_number p = Raises e ->
    may_descend 1 max_level = true ->
    forall c,
      In c (fst (get_pdf_outline_info get_page_number children 2 max_level
                   (join_path "" t))) ->
      In c (fst (get_pdf_outline_info get_page_number outline 1 max_level "")).

(** ** A resolver for the examples *)

(** Page handles 0 and up resolve to themselves; handle 99 is broken. *)
Definition broken_at_99 (p : nat) : Resolution :=
  if (p =? 99)%nat then Raises "not found" else Returns (Some (Z.of_nat p)).

(** Page handles 0 to 3 resolve to themselves, the others to no page. *)
Definition within_4 (p : nat) : Resolution :=
  if (p <? 4)%nat then Returns (Some (Z.of_nat p)) else Returns None.

(** ** Further notions for the outline *)

Definition is_destination {PageRef : Type} (it : OutlineItem PageRef) : bool :=
  match it with
  | Destination _ _ => true
  | SubOutline _ => false
  end.

(** The number of destinations of an outline, nested lists included. *)
Fixpoint count_destinations {PageRef : Type} (it : OutlineItem PageRef) : nat :=
  match it with
  | Destination _ _ => 1
  | SubOutline items => list_sum (map count_destinations items)
  end.

(** The number of nodes of a tree. *)
Fixpoint node_count {PageRef : Type} (n : OutlineNode PageRef) : nat :=
  match n with
  | Node _ _ cs => S (list_sum (map node_count cs))
  end.

(** The tree cut below its first [S d] levels. *)
Fixpoint truncate {PageRef : Type} (d : nat) (n : OutlineNode PageRef)
    : OutlineNode PageRef :=
  match n with
  | Node t p cs =>
      Node t p
        match d with
        | O => []
        | S d' => map (truncate d') cs
        end
  end.

(** ** [split_pdf_by_chapters] *)

Section Pipeline.

Variable Page : Type.
Variable PageRef : Type.

(** Paths and the [os.path] functions the program applies to them. *)
Variable Path : Type.
Variable dirname : Path -> Path.
Variable basename : Path -> Path.
Variable splitext_root : Path -> Path.
Variable join : Path -> Path -> Path.

(** What the program uses of [PyPDF2.PdfReader(file)]. *)
Record PdfReader : Type := mkReader {
  reader_pages : list Page;
  reader_outline : list (OutlineItem PageRef);
  reader_get_page_number : PageRef -> Resolution
}.

(** What the program finds at [pdf_path]: no file
    ([os.path.exists] is false), a file whose opening or reading raises
    inside the [try], or a reader. *)
Inductive Opening : Type :=
| NotFound
| Unreadable (err : string)
| Opened (reader : PdfReader).

(** How a run ends: one of the early returns, each with its message, the
    split into [final_output_dir] carried through, or an exception
    caught by the handler at the end, raised while reading or while
    splitting; the files written before the exception stay. *)
Inductive Outcome : Type :=
| InputMissing
| ReadFailed (err : string)
| NoOutline
| NoValidBookmarks
| NoSections
| SplitDone (final_output_dir : Path) (files : list (OutputFile Page))
| SplitFailed (final_output_dir : Path) (files : list (OutputFile Page))
              (err : string).

(** The result is the outcome with the diagnostics printed on the
    way. *)
Definition split_pdf_by_chapters (fs : FileSystem Path) (pdf_path : Path)
    (opened : Opening) (output_dir : option Path) (add_sequence : bool)
    (max_level : Z) : Outcome * list Diagnostic :=
  match opened with
  | NotFound => (InputMissing, [])
  | Unreadable err => (ReadFailed err, [])
  | Opened reader =>
      let pdf_basename := splitext_root (basename pdf_path) in
      let final_output_dir :=
        match output_dir with
        | None => join (dirname pdf_path) pdf_basename
        | Some dir => join dir pdf_basename
        end in
      let total_pages := Z.of_nat (List.length (reader_pages reader)) in
      match reader_outline reader with
      | [] => (NoOutline, [])
      | _ :: _ =>
          let flat :=
            get_pdf_outline_info (reader_get_page_number reader)
                                 (reader_outline reader) 1 max_level "" in
          let outline_info := resolved_bookmarks (fst flat) in
          match outline_info with
          | [] => (NoValidBookmarks, snd flat)
          | _ :: _ =>
              let sections := calculate_page_ranges outline_info total_pages in
              match sections with
              | [] => (NoSections, snd flat)
              | _ :: _ =>
                  let run :=
                    perform_pdf_split fs (reader_pages reader) sections
                                      final_output_dir add_sequence max_level in
                  match raised run with
                  | None =>
                      (SplitDone final_output_dir (written run),
                       snd flat ++ reported run)
                  | Some err =>
                      (SplitFailed final_output_dir (written run) err,
                       snd flat ++ reported run)
                  end
              end
          end
      end
  end.

End Pipeline.

Arguments mkReader {Page PageRef} reader_pages reader_outline
  reader_get_page_number.
Arguments reader_pages {Page PageRef} p.
Arguments reader_outline {Page PageRef} p.
Arguments reader_get_page_number {Page PageRef} p.
Arguments NotFound {Page PageRef}.
Arguments Unreadable {Page PageRef} err.
Arguments Opened {Page PageRef} reader.
Arguments InputMissing {Page Path}.
Arguments ReadFailed {Page Path} err.
Arguments NoOutline {Page Path}.
Arguments NoValidBookmarks {Page Path}.
Arguments NoSections {Page Path}.
Arguments SplitDone {Page Path} final_output_dir files.
Arguments SplitFailed {Page Path} final_output_dir files err.
Arguments split_pdf_by_chapters {Page PageRef Path} dirname basename
  splitext_root join fs pdf_path opened output_dir add_sequence max_level.

(** ** File systems for the examples *)

(** Nothing raises. *)
Definition never_fails : FileSystem string :=
  mkFileSystem (fun _ => None) (fun _ _ _ => None).

(** The directory [book] cannot be made: a file of that name exists. *)
Definition output_dir_taken : FileSystem string :=
  mkFileSystem (fun dir => if String.eqb dir "book"
                           then Some "File exists" else None)
               (fun _ _ _ => None).

(** File names of more than 20 characters cannot be written. *)
Definition short_names_only : FileSystem string :=
  mkFileSystem (fun _ => None)
               (fun _ _ file =>
                  if (20 <? String.length file)%nat
                  then Some "File name too long" else None).

(** ** Sanity checks on the scenarios of the documentation *)

Example scenario_intro_body :
  calculate_page_ranges
    [mkBookmark "Intro" 0 "Intro"; mkBookmark "Body" 3 "Body"] 10
  = [mkSection "Intro" "Intro" 1 3; mkSection "Body" "Body" 4 10].
Proof. reflexivity. Qed.

Example scenario_nested :
  let outline := [Destination "A" 0; SubOutline [Destination "A.1" 2];
                  Destination "B" 5] in
  let flat := get_pdf_outline_info (fun p => Returns (Some p)) outline 1 0 "" in
  let sections := calculate_page_ranges (resolved_bookmarks (fst flat)) 8 in
  map entry_full_path_name (fst flat) = ["A"; "A - A.1"; "B"]
  /\ map (fun s => (start_page s, end_page s)) sections = [(1, 2); (3, 5); (6, 8)]
  /\ map filename
       (written (perform_pdf_split never_fails (seq 0 8) sections "out"
                                   false 0))
     = ["A.pdf"; "A - A.1.pdf"; "B.pdf"]
  /\ map filename
       (written (perform_pdf_split never_fails (seq 0 8) sections "out"
                                   true 0))
     = ["1_A.pdf"; "2_A - A.1.pdf"; "3_B.pdf"].
Proof. vm_compute. repeat split. Qed.

Example format_index_pads : format_index 7 3 = "007" /\ str 120 = "120".
Proof. vm_compute. split; reflexivity. Qed.

Example clean_name_removes :
  clean_name "a/b\c:d*e?f<g>h|i" = "abcdefghi".
Proof. reflexivity. Qed.

(** ** Facts about the sort *)

Lemma insert_by_page_perm (x : Bookmark) (l : list Bookmark) :
  Permutation (x :: l) (insert_by_page x l).
Proof.
  induction l as [|y l IH]; simpl.
  - apply Permutation_refl.
  - destruct (page_index x <=? page_index y).
    + apply Permutation_refl.
    + eapply perm_trans; [apply perm_swap|].
      apply perm_skip, IH.
Qed.

Lemma sort_by_page_perm (l : list Bookmark) :
  Permutation l (sort_by_page l).
Proof.
  induction l as [|x l IH]; simpl.
  - constructor.
  - eapply perm_trans; [apply perm_skip, IH|].
    apply insert_by_page_perm.
Qed.

Lemma insert_by_page_hd (x y : Bookmark) (l : list Bookmark) :
  HdRel page_le y l -> page_le y x -> HdRel page_le y (insert_by_page x l).
Proof.
  intros Hl Hyx. destruct l as [|z l]; simpl.
  - constructor. exact Hyx.
  - destruct (page_index x <=? page_index z); constructor.
    + exact Hyx.
    + inversion Hl; assumption.
Qed.

Lemma insert_by_page_sorted (x : Bookmark) (l : list Bookmark) :
  Sorted page_le l -> Sorted page_le (insert_by_page x l).
Proof.
  induction l as [|y l IH]; intros Hs; simpl.
  - repeat constructor.
  - destruct (page_index x <=? page_index y) eqn:E.
    + constructor; [exact Hs|]. constructor.
      unfold page_le. apply Z.leb_le. exact E.
    + inversion Hs as [|? ? Hs' Hhd]; subst.
      constructor; [apply IH; exact Hs'|].
      apply insert_by_page_hd; [exact Hhd|].
      unfold page_le. apply Z.leb_gt in E. lia.
Qed.

Lemma sort_by_page_sorted (l : list Bookmark) :
  Sorted page_le (sort_by_page l).
Proof.
  induction l as [|x l IH]; simpl.
  - constructor.
  - apply insert_by_page_sorted, IH.
Qed.

(** A list that is already in page order is left as it is. *)
Lemma sort_by_page_fixed (l : list Bookmark) :
  Sorted page_le l -> sort_by_page l = l.
Proof.
  induction l as [|x l IH]; intros Hs; simpl.
  - reflexivity.
  - inversion Hs as [|? ? Hs' Hhd]; subst.
    rewrite (IH Hs').
    destruct l as [|y l]; simpl.
    + reflexivity.
    + inversion Hhd as [|? ? Hxy]; subst. unfold page_le in Hxy.
      apply Z.leb_le in Hxy. rewrite Hxy. reflexivity.
Qed.

(** Stability: the bookmarks of one page keep their order. *)
Lemma insert_by_page_filter (k : Z) (x : Bookmark) (l : list Bookmark) :
  Sorted page_le l ->
  filter (fun b => page_index b =? k) (insert_by_page x l)
  = filter (fun b => page_index b =? k) (x :: l).
Proof.
  induction l as [|y l IH]; intros Hs.
  - reflexivity.
  - cbn [insert_by_page].
    destruct (page_index x <=? page_index y) eqn:E; [reflexivity|].
    inversion Hs as [|? ? Hs' Hhd]; subst.
    cbn [filter]. rewrite (IH Hs'). cbn [filter].
    apply Z.leb_gt in E.
    destruct (page_index y =? k) eqn:Ey, (page_index x =? k) eqn:Ex;
      try reflexivity.
    apply Z.eqb_eq in Ey, Ex. lia.
Qed.

Lemma sort_by_page_stable (k : Z) (l : list Bookmark) :
  filter (fun b => page_index b =? k) (sort_by_page l)
  = filter (fun b => page_index b =? k) l.
Proof.
  induction l as [|x l IH].
  - reflexivity.
  - cbn [sort_by_page].
    rewrite insert_by_page_filter by apply sort_by_page_sorted.
    cbn [filter]. rewrite IH. reflexivity.
Qed.

Lemma sort_by_page_nonempty (l : list Bookmark) :
  l <> [] -> sort_by_page l <> [].
Proof.
  intros Hl Hs. apply Hl.
  apply Permutation_nil. apply Permutation_sym.
  rewrite <- Hs. apply sort_by_page_perm.
Qed.

Lemma page_le_strongly_sorted (l : list Bookmark) :
  Sorted page_le l -> StronglySorted page_le l.
Proof.
  apply Sorted_StronglySorted.
  intros x y z. unfold page_le. lia.
Qed.

Lemma sort_by_page_In (b : Bookmark) (l : list Bookmark) :
  In b (sort_by_page l) <-> In b l.
Proof.
  split; apply Permutation_in.
  - apply Permutation_sym, sort_by_page_perm.
  - apply sort_by_page_perm.
Qed.

Lemma sorted_last_greatest (front : list Bookmark) (final b : Bookmark) :
  Sorted page_le (front ++ [final]) ->
  In b (front ++ [final]) ->
  page_index b <= page_index final.
Proof.
  intros Hs. apply page_le_strongly_sorted in Hs.
  induction front as [|x front IH]; cbn [app] in *.
  - intros [<-|[]]. lia.
  - inversion Hs as [|? ? Hs' Hx]; subst. intros [<-|Hb].
    + rewrite Forall_forall in Hx.
      apply (Hx final). apply in_or_app. right. left. reflexivity.
    + apply IH; assumption.
Qed.

(** ** The loop over positions is the recursion over the list *)

Lemma nth_error_behind (pre : list Bookmark) (item : Bookmark)
    (rest : list Bookmark) :
  nth_error (pre ++ item :: rest) (List.length pre + 1) = nth_error rest 0.
Proof.
  rewrite nth_error_app2 by lia.
  replace (List.length pre + 1 - List.length pre)%nat with 1%nat by lia.
  reflexivity.
Qed.

Lemma section_at_section_of (pre : list Bookmark) (item : Bookmark)
    (rest : list Bookmark) (total_pages : Z) :
  section_at (pre ++ item :: rest) total_pages (List.length pre) item
  = section_of item rest total_pages.
Proof.
  unfold section_at, section_of.
  rewrite nth_error_behind, length_app. cbn [List.length].
  destruct rest as [|next rest]; cbn [List.length nth_error].
  - replace (List.length pre + 1 <? List.length pre + 1)%nat with false
      by (symmetry; apply Nat.ltb_ge; lia).
    replace (List.length pre =? List.length pre + 1 - 1)%nat with true
      by (symmetry; apply Nat.eqb_eq; lia).
    reflexivity.
  - replace (List.length pre + 1 <? List.length pre + S (S (List.length rest)))%nat
      with true by (symmetry; apply Nat.ltb_lt; lia).
    replace (List.length pre =? List.length pre + S (S (List.length rest)) - 1)%nat
      with false by (symmetry; apply Nat.eqb_neq; lia).
    reflexivity.
Qed.

Lemma ranges_of_suffix (pre suf : list Bookmark) (total_pages : Z) :
  flat_map (fun p => section_at (pre ++ suf) total_pages (fst p) (snd p))
           (enumerate_from (List.length pre) suf)
  = ranges_from suf total_pages.
Proof.
  revert pre. induction suf as [|item rest IH]; intros pre.
  - reflexivity.
  - cbn [enumerate_from flat_map ranges_from fst snd].
    rewrite section_at_section_of. f_equal.
    specialize (IH (pre ++ [item])).
    rewrite <- app_assoc in IH. cbn [app] in IH.
    rewrite length_app in IH. cbn [List.length] in IH.
    replace (List.length pre + 1)%nat with (S (List.length pre)) in IH by lia.
    exact IH.
Qed.

Lemma ranges_of_sorted_rec (l : list Bookmark) (total_pages : Z) :
  ranges_of_sorted l total_pages = ranges_from l total_pages.
Proof.
  apply (ranges_of_suffix [] l total_pages).
Qed.

Lemma calculate_page_ranges_rec (outline_info : list Bookmark) (total_pages : Z) :
  calculate_page_ranges outline_info total_pages
  = ranges_from (sort_by_page outline_info) total_pages.
Proof.
  apply ranges_of_sorted_rec.
Qed.

(** ** Shape of the computed ranges *)

Lemma section_of_final (item : Bookmark) (total_pages : Z) :
  section_of item [] total_pages
  = [mkSection (title item) (full_path_name item)
               (page_index item + 1) total_pages].
Proof.
  unfold section_of.
  destruct (page_index item <=? total_pages - 1); [|reflexivity].
  do 2 f_equal. lia.
Qed.

Lemma section_of_dropped (item next : Bookmark) (rest : list Bookmark)
    (total_pages : Z) :
  page_index item > page_index next - 1 ->
  section_of item (next :: rest) total_pages = [].
Proof.
  intros H. unfold section_of.
  replace (page_index item <=? page_index next - 1) with false
    by (symmetry; apply Z.leb_gt; lia).
  reflexivity.
Qed.

Lemma section_of_kept (item next : Bookmark) (rest : list Bookmark)
    (total_pages : Z) :
  page_index item < page_index next ->
  section_of item (next :: rest) total_pages
  = [mkSection (title item) (full_path_name item)
               (page_index item + 1) (page_index next)].
Proof.
  intros H. unfold section_of.
  replace (page_index item <=? page_index next - 1) with true
    by (symmetry; apply Z.leb_le; lia).
  do 2 f_equal. lia.
Qed.

(** In page order an item either lies strictly before the next one, and
    is kept, or shares its page, and is dropped. *)
Lemma section_of_cases (item next : Bookmark) (rest : list Bookmark)
    (total_pages : Z) :
  page_le item next ->
  (page_index item < page_index next
   /\ section_of item (next :: rest) total_pages
      = [mkSection (title item) (full_path_name item)
                   (page_index item + 1) (page_index next)])
  \/ (page_index item = page_index next
      /\ section_of item (next :: rest) total_pages = []).
Proof.
  unfold page_le. intros Hle.
  destruct (Z.eq_dec (page_index item) (page_index next)) as [E|N].
  - right. split; [exact E|]. apply section_of_dropped. lia.
  - left. split; [lia|]. apply section_of_kept. lia.
Qed.

Lemma ranges_from_final (front : list Bookmark) (final : Bookmark)
    (total_pages : Z) :
  exists sections,
    ranges_from (front ++ [final]) total_pages
    = sections ++ [mkSection (title final) (full_path_name final)
                             (page_index final + 1) total_pages].
Proof.
  induction front as [|x front [sections IH]].
  - exists []. cbn [app ranges_from]. rewrite section_of_final. reflexivity.
  - exists (section_of x (front ++ [final]) total_pages ++ sections).
    cbn [app ranges_from]. rewrite IH, app_assoc. reflexivity.
Qed.

Lemma ranges_from_head (h : Bookmark) (l : list Bookmark) (total_pages : Z) :
  Sorted page_le (h :: l) ->
  exists s ss, ranges_from (h :: l) total_pages = s :: ss
               /\ start_page s = page_index h + 1.
Proof.
  revert h. induction l as [|n r IH]; intros h Hs.
  - cbn [ranges_from]. rewrite section_of_final. eexists _, _.
    split; reflexivity.
  - inversion Hs as [|? ? Hs' Hhd]; subst.
    inversion Hhd as [|? ? Hle]; subst.
    cbn [ranges_from].
    destruct (section_of_cases h n r total_pages Hle) as [[_ E]|[Heq E]];
      rewrite E.
    + eexists _, _. split; reflexivity.
    + destruct (IH n Hs') as (s & ss & Hr & Hstart).
      exists s, ss. split; [exact Hr|]. lia.
Qed.

Lemma ranges_from_chain (l : list Bookmark) (total_pages : Z) :
  Sorted page_le l ->
  Sorted follows_on (ranges_from l total_pages)
  /\ last (map end_page (ranges_from l total_pages)) total_pages = total_pages.
Proof.
  induction l as [|h l IH]; intros Hs.
  - split; [constructor | reflexivity].
  - inversion Hs as [|? ? Hs' Hhd]; subst.
    destruct (IH Hs') as [IHs IHl].
    destruct l as [|n r].
    + cbn [ranges_from]. rewrite section_of_final. cbn.
      split; [repeat constructor | reflexivity].
    + inversion Hhd as [|? ? Hle]; subst.
      change (ranges_from (h :: n :: r) total_pages)
        with (section_of h (n :: r) total_pages ++ ranges_from (n :: r) total_pages).
      destruct (section_of_cases h n r total_pages Hle) as [[Hlt E]|[Heq E]];
        rewrite E; cbn [app].
      * destruct (ranges_from_head n r total_pages Hs') as (s & ss & Hr & Hstart).
        rewrite Hr in *. split.
        -- constructor; [exact IHs|]. constructor.
           unfold follows_on. cbn. lia.
        -- exact IHl.
      * split; assumption.
Qed.

Lemma follows_on_ascending (sections : list Section_) :
  Sorted follows_on sections ->
  StronglySorted Z.lt (map start_page sections).
Proof.
  intros Hs. apply Sorted_StronglySorted.
  - intros x y z. apply Z.lt_trans.
  - induction Hs as [|s l Hl IH Hhd]; cbn [map].
    + constructor.
    + constructor; [exact IH|].
      destruct Hhd as [|s' l' [Hlt _]]; constructor. exact Hlt.
Qed.

(** C1.  For a non-empty bookmark list and [total_pages >= 1], the last
    bookmark in sorted page order (a bookmark of the input with the
    greatest [page_index], and of the bookmarks on that page the one
    placed last in the input) always yields the last section of
    [calculate_page_ranges], running from its own page ([start_index + 1])
    to [total_pages]: by the normal rule when [total_pages - 1] is not
    below its [start_index], by the rule for the last item otherwise.  It
    is never lost. *)
Theorem last_bookmark_always_emitted (outline_info : list Bookmark)
    (total_pages : Z) :
  outline_info <> [] ->
  1 <= total_pages ->
  exists front final sections,
    sort_by_page outline_info = front ++ [final]
    /\ In final outline_info
    /\ (forall b, In b outline_info -> page_index b <= page_index final)
    /\ (exists earlier,
          filter (fun b => page_index b =? page_index final) outline_info
          = earlier ++ [final])
    /\ section_at (sort_by_page outline_info) total_pages
                  (List.length front) final
       = [mkSection (title final) (full_path_name final)
                    (page_index final + 1) total_pages]
    /\ calculate_page_ranges outline_info total_pages
       = sections ++ [mkSection (title final) (full_path_name final)
                                (page_index final + 1) total_pages].
Proof.
  intros Hne _.
  destruct (exists_last (sort_by_page_nonempty outline_info Hne))
    as (front & final & Hsort).
  destruct (ranges_from_final front final total_pages) as [sections Hr].
  pose proof (sort_by_page_sorted outline_info) as Hsorted.
  rewrite Hsort in Hsorted.
  exists front, final, sections. split; [exact Hsort|].
  split; [|split; [|split; [|split]]].
  - apply sort_by_page_In. rewrite Hsort.
    apply in_or_app. right. left. reflexivity.
  - intros b Hb. apply (sorted_last_greatest front final b Hsorted).
    rewrite <- Hsort. apply sort_by_page_In. exact Hb.
  - exists (filter (fun b => page_index b =? page_index final) front).
    rewrite <- sort_by_page_stable, Hsort, filter_app. cbn [filter].
    rewrite Z.eqb_refl. reflexivity.
  - rewrite Hsort, section_at_section_of. apply section_of_final.
  - rewrite calculate_page_ranges_rec, Hsort. exact Hr.
Qed.

(** Two bookmarks out of page order, the later one beyond the last page
    of a 10-page document: it is kept by the rule for the last item. *)
Lemma last_bookmark_beyond_last_page :
  exists front final sections,
    sort_by_page [mkBookmark "B" 12 "B"; mkBookmark "A" 0 "A"]
    = front ++ [final]
    /\ In final [mkBookmark "B" 12 "B"; mkBookmark "A" 0 "A"]
    /\ (forall b, In b [mkBookmark "B" 12 "B"; mkBookmark "A" 0 "A"] ->
                  page_index b <= page_index final)
    /\ (exists earlier,
          filter (fun b => page_index b =? page_index final)
                 [mkBookmark "B" 12 "B"; mkBookmark "A" 0 "A"]
          = earlier ++ [final])
    /\ section_at (sort_by_page [mkBookmark "B" 12 "B"; mkBookmark "A" 0 "A"])
                  10 (List.length front) final
       = [mkSection (title final) (full_path_name final)
                    (page_index final + 1) 10]
    /\ calculate_page_ranges [mkBookmark "B" 12 "B"; mkBookmark "A" 0 "A"] 10
       = sections ++ [mkSection (title final) (full_path_name final)
                                (page_index final + 1) 10].
Proof.
  apply (last_bookmark_always_emitted
           [mkBookmark "B" 12 "B"; mkBookmark "A" 0 "A"] 10).
  - discriminate.
  - lia.
Defined.

Example scenario_out_of_order :
  calculate_page_ranges [mkBookmark "B" 5 "B"; mkBookmark "A" 0 "A"] 10
  = [mkSection "A" "A" 1 5; mkSection "B" "B" 6 10]
  /\ calculate_page_ranges [mkBookmark "B" 12 "B"; mkBookmark "A" 0 "A"] 10
     = [mkSection "A" "A" 1 12; mkSection "B" "B" 13 10].
Proof. split; reflexivity. Qed.

Example scenario_only :
  calculate_page_ranges [mkBookmark "Only" 9 "Only"] 10
  = [mkSection "Only" "Only" 10 10].
Proof. reflexivity. Qed.

Example scenario_beyond_last_page :
  calculate_page_ranges [mkBookmark "Only" 12 "Only"] 10
  = [mkSection "Only" "Only" 13 10].
Proof. reflexivity. Qed.

(** C2.  The sections of [calculate_page_ranges] come in strictly
    ascending [start_page] order, each section ends one page before the
    next one starts, and the final section ends at [total_pages]. *)
Theorem ranges_contiguous (outline_info : list Bookmark) (total_pages : Z) :
  StronglySorted Z.lt
    (map start_page (calculate_page_ranges outline_info total_pages))
  /\ Sorted follows_on (calculate_page_ranges outline_info total_pages)
  /\ last (map end_page (calculate_page_ranges outline_info total_pages))
          total_pages = total_pages.
Proof.
  rewrite calculate_page_ranges_rec.
  destruct (ranges_from_chain (sort_by_page outline_info) total_pages
              (sort_by_page_sorted outline_info)) as [Hs Hl].
  split; [apply follows_on_ascending; exact Hs|].
  split; assumption.
Qed.

Example ranges_contiguous_with_duplicates :
  calculate_page_ranges
    [mkBookmark "D" 5 "D"; mkBookmark "B" 3 "B"; mkBookmark "A" 0 "A";
     mkBookmark "C" 3 "C"] 10
  = [mkSection "A" "A" 1 3; mkSection "C" "C" 4 5; mkSection "D" "D" 6 10].
Proof. reflexivity. Qed.

(** ** Bookmarks that share a page *)

Lemma ranges_from_without (pre : list Bookmark) (a b : Bookmark)
    (post : list Bookmark) (total_pages : Z) :
  page_index a = page_index b ->
  ranges_from (pre ++ a :: b :: post) total_pages
  = ranges_from (pre ++ b :: post) total_pages.
Proof.
  intros Heq. induction pre as [|x pre IH].
  - cbn [app ranges_from]. rewrite section_of_dropped by lia. reflexivity.
  - cbn [app ranges_from]. rewrite IH. f_equal.
    destruct pre as [|y pre]; [|reflexivity].
    unfold section_of. cbn [app]. rewrite Heq. reflexivity.
Qed.

Lemma sorted_without (pre : list Bookmark) (a b : Bookmark)
    (post : list Bookmark) :
  page_index a = page_index b ->
  Sorted page_le (pre ++ a :: b :: post) ->
  Sorted page_le (pre ++ b :: post).
Proof.
  intros Heq. induction pre as [|x pre IH]; cbn [app]; intros Hs.
  - inversion Hs; assumption.
  - inversion Hs as [|? ? Hs' Hhd]; subst.
    constructor; [apply IH; exact Hs'|].
    destruct pre as [|y pre]; cbn [app] in *.
    + inversion Hhd as [|? ? Hle]; subst. constructor.
      unfold page_le in *. lia.
    + inversion Hhd; subst. constructor. assumption.
Qed.

Lemma sorted_middle (pre : list Bookmark) (a b : Bookmark)
    (post : list Bookmark) :
  Sorted page_le (pre ++ a :: b :: post) -> page_le a b.
Proof.
  induction pre as [|x pre IH]; cbn [app]; intros Hs.
  - inversion Hs as [|? ? _ Hhd]; subst. inversion Hhd; assumption.
  - inversion Hs; subst. apply IH. assumption.
Qed.

(** C4, as the code has it.  In a list in page order, an item that is not
    the last and whose [start_index] exceeds its [end_index] shares its
    page with the next item and is dropped: its turn of the loop appends
    nothing, and the result is the one computed without it.  Of the
    bookmarks of one page it is the one placed last that gets the range
    up to a later page. *)
Theorem duplicate_page_keeps_last (pre : list Bookmark) (a b : Bookmark)
    (post : list Bookmark) (total_pages : Z) :
  Sorted page_le (pre ++ a :: b :: post) ->
  page_index a > page_index b - 1 ->
  page_index a = page_index b
  /\ section_at (pre ++ a :: b :: post) total_pages (List.length pre) a = []
  /\ calculate_page_ranges (pre ++ a :: b :: post) total_pages
     = calculate_page_ranges (pre ++ b :: post) total_pages
  /\ forall c post',
       post = c :: post' ->
       page_index b < page_index c ->
       section_at (pre ++ a :: b :: post) total_pages (S (List.length pre)) b
       = [mkSection (title b) (full_path_name b)
                    (page_index b + 1) (page_index c)].
Proof.
  intros Hs Hgt.
  assert (Heq : page_index a = page_index b).
  { pose proof (sorted_middle pre a b post Hs) as Hle.
    unfold page_le in Hle. lia. }
  split; [exact Heq|]. split; [|split].
  - rewrite section_at_section_of. apply section_of_dropped. exact Hgt.
  - rewrite !calculate_page_ranges_rec.
    rewrite (sort_by_page_fixed _ Hs).
    rewrite (sort_by_page_fixed _ (sorted_without pre a b post Heq Hs)).
    apply ranges_from_without. exact Heq.
  - intros c post' -> Hlt.
    replace (pre ++ a :: b :: c :: post') with ((pre ++ [a]) ++ b :: c :: post')
      by (rewrite <- app_assoc; reflexivity).
    replace (S (List.length pre)) with (List.length (pre ++ [a]))
      by (rewrite length_app; cbn; lia).
    rewrite section_at_section_of. apply section_of_kept. exact Hlt.
Qed.

Lemma duplicate_page_keeps_last_example :
  page_index (mkBookmark "A" 3 "A") = page_index (mkBookmark "B" 3 "B")
  /\ section_at [mkBookmark "A" 3 "A"; mkBookmark "B" 3 "B";
                 mkBookmark "C" 5 "C"] 10 0 (mkBookmark "A" 3 "A") = []
  /\ calculate_page_ranges
       [mkBookmark "A" 3 "A"; mkBookmark "B" 3 "B"; mkBookmark "C" 5 "C"] 10
     = calculate_page_ranges [mkBookmark "B" 3 "B"; mkBookmark "C" 5 "C"] 10
  /\ forall c post',
       [mkBookmark "C" 5 "C"] = c :: post' ->
       page_index (mkBookmark "B" 3 "B") < page_index c ->
       section_at [mkBookmark "A" 3 "A"; mkBookmark "B" 3 "B";
                   mkBookmark "C" 5 "C"] 10 1 (mkBookmark "B" 3 "B")
       = [mkSection "B" "B" 4 (page_index c)].
Proof.
  apply (duplicate_page_keeps_last [] (mkBookmark "A" 3 "A")
           (mkBookmark "B" 3 "B") [mkBookmark "C" 5 "C"] 10).
  - repeat constructor; unfold page_le; simpl; lia.
  - simpl. lia.
Defined.

(** C4, second half as worded: the first of two bookmarks of one page
    does not keep a range.  With A and B on page index 3 and C on page
    index 5, A is dropped and B gets pages 4 to 5. *)
Lemma first_of_duplicates_dropped :
  calculate_page_ranges
    [mkBookmark "A" 3 "A"; mkBookmark "B" 3 "B"; mkBookmark "C" 5 "C"] 10
  = [mkSection "B" "B" 4 5; mkSection "C" "C" 6 10]
  /\ ~ first_of_duplicates_kept
         [mkBookmark "A" 3 "A"; mkBookmark "B" 3 "B"; mkBookmark "C" 5 "C"] 10.
Proof.
  split; [reflexivity|].
  intros H.
  destruct (H [] (mkBookmark "A" 3 "A") (mkBookmark "B" 3 "B")
              (mkBookmark "C" 5 "C") [] eq_refl eq_refl) as (s & Hin & _).
  - simpl. lia.
  - exact Hin.
Qed.

(** ** Pages copied by the split *)

Lemma seq_offset (m s n : nat) :
  map (fun k => (m + k)%nat) (seq s n) = seq (m + s) n.
Proof.
  revert s. induction n as [|n IH]; intros s; cbn [seq map].
  - reflexivity.
  - f_equal. rewrite IH. f_equal. lia.
Qed.

Lemma range_app (lo mid hi : Z) :
  lo <= mid -> mid <= hi -> range lo mid ++ range mid hi = range lo hi.
Proof.
  intros H1 H2. unfold range.
  replace (Z.to_nat (hi - lo))
    with (Z.to_nat (mid - lo) + Z.to_nat (hi - mid))%nat by lia.
  rewrite seq_app, map_app. f_equal.
  cbn [Nat.add].
  rewrite <- (Nat.add_0_r (Z.to_nat (mid - lo))) at 1.
  rewrite <- seq_offset, map_map.
  apply map_ext. intros k. lia.
Qed.

Lemma range_shift (d lo hi : Z) :
  map (fun k => k + d) (range lo hi) = range (lo + d) (hi + d).
Proof.
  unfold range. rewrite map_map.
  replace (hi + d - (lo + d)) with (hi - lo) by lia.
  apply map_ext. intros k. lia.
Qed.

Lemma ranges_from_page_numbers (l : list Bookmark) (h : Bookmark)
    (total_pages : Z) :
  Sorted page_le (h :: l) ->
  (forall b, In b (h :: l) -> page_index b < total_pages) ->
  List.concat (map section_page_numbers (ranges_from (h :: l) total_pages))
  = range (page_index h + 1) (total_pages + 1).
Proof.
  revert h. induction l as [|n r IH]; intros h Hs Hlt.
  - cbn [ranges_from]. rewrite section_of_final.
    cbn [app map List.concat]. rewrite app_nil_r. reflexivity.
  - inversion Hs as [|? ? Hs' Hhd]; subst.
    inversion Hhd as [|? ? Hle]; subst.
    assert (Hlt' : forall b, In b (n :: r) -> page_index b < total_pages)
      by (intros b Hb; apply Hlt; right; exact Hb).
    specialize (IH n Hs' Hlt').
    change (ranges_from (h :: n :: r) total_pages)
      with (section_of h (n :: r) total_pages ++ ranges_from (n :: r) total_pages).
    destruct (section_of_cases h n r total_pages Hle) as [[Hhn E]|[Heq E]];
      rewrite E; cbn [app map List.concat]; rewrite IH.
    + unfold section_page_numbers. cbn [start_page end_page].
      apply range_app; [lia|].
      pose proof (Hlt n (or_intror (or_introl eq_refl))). lia.
    + rewrite Heq. reflexivity.
Qed.

Section Copy.

Variable Page : Type.

Lemma copy_pages_page_at (pages : list Page) (lo hi : Z) :
  copy_pages pages lo hi = flat_map (page_at pages) (range lo hi).
Proof. reflexivity. Qed.

Lemma split_all_valid (pages : list Page) (num_digits : nat)
    (add_sequence : bool) (max_level : Z) (sections : list Section_) (i : nat) :
  Forall (fun s => invalid_range pages s = false) sections ->
  let results :=
    map (fun p => split_section pages num_digits add_sequence max_level
                                (fst p) (snd p))
        (enumerate_from i sections) in
  List.concat (map file_pages (List.concat (map fst results)))
  = flat_map (page_at pages)
      (List.concat
         (map (fun s => range (start_page s - 1) (end_page s - 1 + 1)) sections))
  /\ List.concat (map snd results) = [].
Proof.
  intros Hv. revert i. induction Hv as [|s sections Hs _ IH]; intros i.
  - split; reflexivity.
  - destruct (IH (S i)) as [IH1 IH2].
    cbn [enumerate_from map fst snd List.concat].
    unfold split_section at 1 3. rewrite Hs. cbn [fst snd app].
    split; [|exact IH2].
    cbn [map List.concat file_pages].
    rewrite flat_map_app, <- copy_pages_page_at. f_equal. exact IH1.
Qed.

End Copy.

Lemma ranges_from_valid (Page : Type) (pages : list Page)
    (l : list Bookmark) (h : Bookmark) :
  Sorted page_le (h :: l) ->
  0 <= page_index h ->
  (forall b, In b (h :: l) -> page_index b < Z.of_nat (List.length pages)) ->
  Forall (fun s => invalid_range pages s = false)
         (ranges_from (h :: l) (Z.of_nat (List.length pages))).
Proof.
  revert h. induction l as [|n r IH]; intros h Hs H0 Hlt.
  - cbn [ranges_from]. rewrite section_of_final. constructor; [|constructor].
    pose proof (Hlt h (or_introl eq_refl)) as Hh.
    unfold invalid_range. cbn [start_page end_page].
    rewrite !orb_false_iff. repeat split.
    + apply Z.ltb_ge. lia.
    + rewrite Z.geb_leb. apply Z.leb_gt. lia.
    + rewrite Z.gtb_ltb. apply Z.ltb_ge. lia.
  - inversion Hs as [|? ? Hs' Hhd]; subst.
    inversion Hhd as [|? ? Hle]; subst.
    pose proof Hle as Hle'. unfold page_le in Hle'.
    assert (Hlt' : forall b, In b (n :: r) ->
                             page_index b < Z.of_nat (List.length pages))
      by (intros b Hb; apply Hlt; right; exact Hb).
    assert (IH' := IH n Hs' ltac:(lia) Hlt').
    change (ranges_from (h :: n :: r) (Z.of_nat (List.length pages)))
      with (section_of h (n :: r) (Z.of_nat (List.length pages))
            ++ ranges_from (n :: r) (Z.of_nat (List.length pages))).
    destruct (section_of_cases h n r (Z.of_nat (List.length pages)) Hle)
      as [[Hhn E]|[Heq E]]; rewrite E; cbn [app]; [|exact IH'].
    constructor; [|exact IH'].
    pose proof (Hlt n (or_intror (or_introl eq_refl))) as Hn.
    unfold invalid_range. cbn [start_page end_page].
    rewrite !orb_false_iff. repeat split.
    + apply Z.ltb_ge. lia.
    + rewrite Z.geb_leb. apply Z.leb_gt. lia.
    + rewrite Z.gtb_ltb. apply Z.ltb_ge. lia.
Qed.

(** C7, as the code has it.  When the first bookmark in page order is on
    page index 0, no item is dropped and every bookmark lies inside the
    document ([page_index < total_pages]), then the page numbers of the
    sections, taken in section order, are exactly 1 to [total_pages],
    each once. *)
Theorem sections_cover_document (outline_info : list Bookmark)
    (total_pages : Z) :
  (exists first rest,
      sort_by_page outline_info = first :: rest /\ page_index first = 0) ->
  List.length (calculate_page_ranges outline_info total_pages)
  = List.length outline_info ->
  (forall b, In b outline_info -> page_index b < total_pages) ->
  List.concat (map section_page_numbers
                   (calculate_page_ranges outline_info total_pages))
  = range 1 (total_pages + 1).
Proof.
  intros (first & rest & Hsort & Hfirst) _ Hin.
  pose proof (sort_by_page_sorted outline_info) as Hs. rewrite Hsort in Hs.
  assert (Hlt : forall b, In b (first :: rest) -> page_index b < total_pages).
  { intros b Hb. apply Hin. rewrite <- Hsort in Hb.
    eapply Permutation_in; [|exact Hb].
    apply Permutation_sym, sort_by_page_perm. }
  rewrite calculate_page_ranges_rec, Hsort.
  rewrite (ranges_from_page_numbers rest first _ Hs Hlt), Hfirst.
  reflexivity.
Qed.

Lemma sections_cover_document_example :
  List.concat
    (map section_page_numbers
       (calculate_page_ranges
          [mkBookmark "A" 0 "A"; mkBookmark "A.1" 2 "A - A.1";
           mkBookmark "B" 5 "B"] 8))
  = range 1 (8 + 1).
Proof.
  apply (sections_cover_document
           [mkBookmark "A" 0 "A"; mkBookmark "A.1" 2 "A - A.1";
            mkBookmark "B" 5 "B"] 8).
  - eexists _, _. split; reflexivity.
  - reflexivity.
  - simpl. intros b [<-|[<-|[<-|[]]]]; simpl; lia.
Defined.

(** C7 as worded fails when a bookmark lies beyond the last page: with
    bookmarks on page indices 0 and 12 of a 10-page document nothing is
    dropped, and the sections are pages 1 to 12 and 13 to 10. *)
Lemma bookmark_beyond_document_not_covered :
  calculate_page_ranges
    [mkBookmark "A" 0 "A"; mkBookmark "B" 12 "B"] 10
  = [mkSection "A" "A" 1 12; mkSection "B" "B" 13 10]
  /\ ~ covers_when_contiguous
         [mkBookmark "A" 0 "A"; mkBookmark "B" 12 "B"] 10.
Proof.
  split; [reflexivity|].
  intros H.
  assert (Hc := H (ex_intro _ _ (ex_intro _ _ (conj eq_refl eq_refl))) eq_refl).
  vm_compute in Hc. discriminate Hc.
Qed.

(** ** File names *)

Lemma append_assoc (a b c : string) :
  ((a ++ b) ++ c = a ++ (b ++ c))%string.
Proof.
  induction a as [|x a IH]; cbn [append].
  - reflexivity.
  - rewrite IH. reflexivity.
Qed.

Lemma length_append (a b : string) :
  String.length (a ++ b) = (String.length a + String.length b)%nat.
Proof.
  induction a as [|x a IH]; cbn [append String.length].
  - reflexivity.
  - rewrite IH. reflexivity.
Qed.

Lemma int_acc_append (a b : string) (acc : nat) :
  int_acc (a ++ b) acc = int_acc b (int_acc a acc).
Proof.
  revert acc. induction a as [|x a IH]; intros acc; cbn [append int_acc].
  - reflexivity.
  - apply IH.
Qed.

Lemma str_fuel_acc (fuel n : nat) (acc : string) :
  str_fuel fuel n acc = (str_fuel fuel n "" ++ acc)%string.
Proof.
  revert n acc. induction fuel as [|fuel IH]; intros n acc; cbn [str_fuel].
  - reflexivity.
  - destruct (n / 10)%nat as [|q].
    + reflexivity.
    + rewrite (IH (S q) (String _ acc)), (IH (S q) (String _ "")).
      rewrite append_assoc. reflexivity.
Qed.

Lemma digit_value (d : nat) :
  (d < 10)%nat -> (nat_of_ascii (digit_char d) - 48)%nat = d.
Proof.
  intros H. unfold digit_char.
  rewrite nat_ascii_embedding by lia. lia.
Qed.

(** The fuel [S n] of [str] is enough: all digits are produced. *)
Lemma int_str_fuel (fuel n : nat) :
  (n < fuel)%nat -> int (str_fuel fuel n "") = n.
Proof.
  revert n. induction fuel as [|fuel IH]; intros n Hn; [lia|].
  cbn [str_fuel].
  pose proof (Nat.div_mod_eq n 10) as Hdm.
  pose proof (Nat.mod_upper_bound n 10 ltac:(lia)) as Hmod.
  destruct (n / 10)%nat as [|q] eqn:Eq.
  - unfold int. cbn [int_acc]. rewrite digit_value by exact Hmod. lia.
  - rewrite str_fuel_acc. unfold int. rewrite int_acc_append.
    fold (int (str_fuel fuel (S q) "")).
    rewrite IH by lia.
    cbn [int_acc]. rewrite digit_value by exact Hmod. lia.
Qed.

Lemma int_str (n : nat) : int (str n) = n.
Proof. apply int_str_fuel. lia. Qed.

Lemma length_str_fuel_le (fuel fuel' n m : nat) :
  (n <= m)%nat -> (n < fuel)%nat -> (m < fuel')%nat ->
  (String.length (str_fuel fuel n "") <= String.length (str_fuel fuel' m ""))%nat.
Proof.
  revert fuel' n m. induction fuel as [|fuel IH]; intros fuel' n m Hnm Hn Hm;
    [lia|].
  destruct fuel' as [|fuel']; [lia|].
  cbn [str_fuel].
  pose proof (Nat.div_mod_eq n 10) as Hdn.
  pose proof (Nat.div_mod_eq m 10) as Hdm.
  pose proof (Nat.Div0.div_le_mono n m 10 Hnm) as Hq.
  destruct (n / 10)%nat as [|qn] eqn:En, (m / 10)%nat as [|qm] eqn:Em.
  - cbn. lia.
  - rewrite str_fuel_acc, length_append. cbn. lia.
  - lia.
  - rewrite (str_fuel_acc fuel), (str_fuel_acc fuel'), !length_append.
    apply Nat.add_le_mono_r. apply IH; lia.
Qed.

Lemma length_str_le (n m : nat) :
  (n <= m)%nat -> (String.length (str n) <= String.length (str m))%nat.
Proof.
  intros H. apply length_str_fuel_le; lia.
Qed.

Lemma length_zeros (k : nat) : String.length (zeros k) = k.
Proof.
  induction k as [|k IH]; cbn [zeros String.length]; [reflexivity|].
  rewrite IH. reflexivity.
Qed.

Lemma int_acc_zeros (k : nat) (s : string) :
  int_acc (zeros k ++ s) 0 = int_acc s 0.
Proof.
  induction k as [|k IH]; cbn [zeros append int_acc]; [reflexivity|].
  exact IH.
Qed.

Lemma int_format_index (k width : nat) : int (format_index k width) = k.
Proof.
  unfold format_index, int. rewrite int_acc_zeros. apply int_str.
Qed.

Lemma length_format_index (k width : nat) :
  (String.length (str k) <= width)%nat ->
  String.length (format_index k width) = width.
Proof.
  intros H. unfold format_index. rewrite length_append, length_zeros. lia.
Qed.

Lemma is_illegal_In (c : ascii) : is_illegal c = true <-> In c illegal_chars.
Proof.
  unfold is_illegal. rewrite existsb_exists. split.
  - intros (x & Hin & Heq). apply Ascii.eqb_eq in Heq. subst. exact Hin.
  - intros Hin. exists c. split; [exact Hin | apply Ascii.eqb_refl].
Qed.

Lemma clean_name_filter (s : string) :
  list_ascii_of_string (clean_name s)
  = filter (fun c => negb (is_illegal c)) (list_ascii_of_string s).
Proof.
  induction s as [|c s IH]; cbn [clean_name list_ascii_of_string filter].
  - reflexivity.
  - destruct (is_illegal c); cbn [negb list_ascii_of_string].
    + exact IH.
    + rewrite IH. reflexivity.
Qed.

Lemma enumerate_from_nth {A : Type} (l : list A) (k i : nat) (x : A) :
  In (i, x) (enumerate_from k l) ->
  (k <= i)%nat /\ nth_error l (i - k) = Some x.
Proof.
  revert k. induction l as [|y l IH]; intros k; cbn [enumerate_from In].
  - intros [].
  - intros [Heq|Hin].
    + inversion Heq; subst. rewrite Nat.sub_diag. split; [lia|reflexivity].
    + destruct (IH (S k) Hin) as [Hle Hnth]. split; [lia|].
      replace (i - k)%nat with (S (i - S k)) by lia. exact Hnth.
Qed.

(** ** The loop of [perform_pdf_split] and its plan *)

Section LoopFacts.

Variable Page : Type.
Variable Path : Type.
Variable fs : FileSystem Path.
Variable output_dir : Path.

(** What a run wrote and printed is the front part of the plan, and the
    whole plan when nothing was raised. *)
Lemma split_loop_plan (pages : list Page) (num_digits : nat)
    (add_sequence : bool) (max_level : Z) (todo : list (nat * Section_)) :
  exists more_files more_log,
    List.concat
      (map fst (map (fun p => split_section pages num_digits add_sequence
                                            max_level (fst p) (snd p)) todo))
    = written (split_loop fs output_dir pages num_digits add_sequence
                          max_level todo) ++ more_files
    /\ List.concat
         (map snd (map (fun p => split_section pages num_digits add_sequence
                                               max_level (fst p) (snd p)) todo))
       = reported (split_loop fs output_dir pages num_digits add_sequence
                              max_level todo) ++ more_log
    /\ (raised (split_loop fs output_dir pages num_digits add_sequence
                           max_level todo) = None ->
        more_files = [] /\ more_log = []).
Proof.
  induction todo as [|[i section] todo (more_files & more_log & IH1 & IH2 & IH3)].
  - exists [], []. repeat split.
  - cbn [map fst snd List.concat split_loop]. unfold split_section at 1 3.
    destruct (invalid_range pages section); cbn [fst snd app].
    + exists more_files, more_log. cbn [written reported raised].
      rewrite IH1, IH2. repeat split; apply IH3; assumption.
    + destruct (write_raises fs output_dir i _) as [e|].
      * eexists _, _. cbn [written reported raised app].
        split; [reflexivity|]. split; [reflexivity|]. discriminate.
      * exists more_files, more_log. cbn [written reported raised].
        rewrite IH1, IH2. repeat split; apply IH3; assumption.
Qed.

Lemma perform_plan (pages : list Page) (sections : list Section_)
    (add_sequence : bool) (max_level : Z) :
  exists more_files more_log,
    fst (split_plan pages sections add_sequence max_level)
    = written (perform_pdf_split fs pages sections output_dir add_sequence
                                 max_level) ++ more_files
    /\ snd (split_plan pages sections add_sequence max_level)
       = reported (perform_pdf_split fs pages sections output_dir add_sequence
                                     max_level) ++ more_log
    /\ (raised (perform_pdf_split fs pages sections output_dir add_sequence
                                  max_level) = None ->
        more_files = [] /\ more_log = []).
Proof.
  unfold perform_pdf_split, split_plan. cbn [fst snd].
  destruct (makedirs_raises fs output_dir) as [e|].
  - eexists _, _. cbn [written reported raised app].
    split; [reflexivity|]. split; [reflexivity|]. discriminate.
  - apply split_loop_plan.
Qed.

Lemma written_in_plan (pages : list Page) (sections : list Section_)
    (add_sequence : bool) (max_level : Z) (f : OutputFile Page) :
  In f (written (perform_pdf_split fs pages sections output_dir add_sequence
                                   max_level)) ->
  In f (fst (split_plan pages sections add_sequence max_level)).
Proof.
  destruct (perform_plan pages sections add_sequence max_level)
    as (more_files & _ & -> & _).
  intros Hin. apply in_or_app. left. exact Hin.
Qed.

End LoopFacts.

Lemma split_written (Page : Type) (pages : list Page)
    (sections : list Section_) (add_sequence : bool) (max_level : Z)
    (f : OutputFile Page) :
  In f (fst (split_plan pages sections add_sequence max_level)) ->
  exists i section,
    nth_error sections i = Some section
    /\ invalid_range pages section = false
    /\ f = mkOutput
             (output_filename (String.length (str (List.length sections)))
                              add_sequence max_level i section)
             (copy_pages pages (start_page section - 1)
                         (end_page section - 1 + 1)).
Proof.
  unfold split_plan. cbn [fst]. intros Hin.
  apply in_concat in Hin. destruct Hin as (files & Hfiles & Hf).
  apply in_map_iff in Hfiles. destruct Hfiles as (res & <- & Hres).
  apply in_map_iff in Hres. destruct Hres as ([i section] & <- & Hp).
  apply enumerate_from_nth in Hp. destruct Hp as [_ Hnth].
  rewrite Nat.sub_0_r in Hnth. cbn [fst snd] in Hf.
  unfold split_section in Hf.
  destruct (invalid_range pages section) eqn:Hv; cbn [fst In] in Hf.
  - destruct Hf.
  - destruct Hf as [<-|[]]. exists i, section. repeat split; assumption.
Qed.



Example filenames_with_padding :
  map filename
    (written (perform_pdf_split never_fails (seq 0 12)
                (map (fun k => mkSection "T" "P - T" (Z.of_nat k) (Z.of_nat k))
                     (seq 1 12))
                "out" true 1))
  = ["01_T.pdf"; "02_T.pdf"; "03_T.pdf"; "04_T.pdf"; "05_T.pdf"; "06_T.pdf";
     "07_T.pdf"; "08_T.pdf"; "09_T.pdf"; "10_T.pdf"; "11_T.pdf"; "12_T.pdf"].
Proof. vm_compute. reflexivity. Qed.

(** The index counts positions in [sections], also over skipped ones. *)
Example filenames_after_skipped_section :
  map filename
    (written (perform_pdf_split never_fails (seq 0 4)
                [mkSection "A" "A" 1 2; mkSection "X" "X" 9 9;
                 mkSection "B" "B" 3 4]
                "out" true 1))
  = ["1_A.pdf"; "3_B.pdf"].
Proof. vm_compute. reflexivity. Qed.

(** A write that raises ends the loop: the sections behind it get
    neither a file nor a diagnostic. *)
Example write_failure_ends_the_loop :
  perform_pdf_split short_names_only (seq 0 6)
    [mkSection "A" "A" 1 2;
     mkSection "A title of some length" "A title of some length" 3 4;
     mkSection "X" "X" 9 9; mkSection "B" "B" 5 6]
    "out" true 1
  = mkRun [mkOutput "1_A.pdf" [0; 1]%nat] [] (Some "File name too long").
Proof. vm_compute. reflexivity. Qed.

(** ** Equations of the outline walk *)

Section OutlineFacts.

Variable PageRef : Type.
Variable get_page_number : PageRef -> Resolution.
Variable max_level : Z.

Local Abbreviation info := (get_pdf_outline_info get_page_number).

Lemma flat_app_nil_l (a : Flat) : flat_app ([], []) a = a.
Proof. destruct a. reflexivity. Qed.

Lemma flat_app_nil_r (a : Flat) : flat_app a ([], []) = a.
Proof. destruct a. unfold flat_app. cbn. rewrite !app_nil_r. reflexivity. Qed.

Lemma flat_app_assoc (a b c : Flat) :
  flat_app (flat_app a b) c = flat_app a (flat_app b c).
Proof. unfold flat_app. cbn. rewrite !app_assoc. reflexivity. Qed.

Lemma info_nil (lvl : Z) (parent : string) :
  info [] lvl max_level parent = ([], []).
Proof. reflexivity. Qed.

Lemma info_sub (cs rest : list (OutlineItem PageRef)) (lvl : Z)
    (parent : string) :
  info (SubOutline cs :: rest) lvl max_level parent
  = info rest lvl max_level parent.
Proof. reflexivity. Qed.

Lemma info_raises (t : string) (p : PageRef) (e : string)
    (rest : list (OutlineItem PageRef)) (lvl : Z) (parent : string) :
  get_page_number p = Raises e ->
  info (Destination t p :: rest) lvl max_level parent
  = flat_app ([], [InvalidBookmark t e]) (info rest lvl max_level parent).
Proof.
  intros H. unfold get_pdf_outline_info. cbn [walk]. rewrite H. reflexivity.
Qed.

Lemma info_node (t : string) (p : PageRef) (pg : option Z)
    (cs rest : list (OutlineItem PageRef)) (lvl : Z) (parent : string) :
  get_page_number p = Returns pg ->
  info (Destination t p :: SubOutline cs :: rest) lvl max_level parent
  = flat_app ([mkEntry t pg (join_path parent t)], [])
      (flat_app
         (if may_descend lvl max_level
          then info cs (lvl + 1) max_level (join_path parent t)
          else ([], []))
         (info rest lvl max_level parent)).
Proof.
  intros H. unfold get_pdf_outline_info. cbn [walk]. rewrite H. reflexivity.
Qed.

Lemma info_leaf (t : string) (p : PageRef) (pg : option Z)
    (rest : list (OutlineItem PageRef)) (lvl : Z) (parent : string) :
  get_page_number p = Returns pg ->
  no_leading_sub rest ->
  info (Destination t p :: rest) lvl max_level parent
  = flat_app ([mkEntry t pg (join_path parent t)], [])
             (info rest lvl max_level parent).
Proof.
  intros H Hrest. unfold get_pdf_outline_info. cbn [walk]. rewrite H.
  destruct rest as [|[t' p'|cs] rest]; try reflexivity.
  destruct Hrest.
Qed.

(** The walk of a list splits in front of any destination. *)
Lemma info_app_destination (t : string) (p : PageRef)
    (rest : list (OutlineItem PageRef)) (lvl : Z) (parent : string)
    (pre : list (OutlineItem PageRef)) :
  info (pre ++ Destination t p :: rest) lvl max_level parent
  = flat_app (info pre lvl max_level parent)
             (info (Destination t p :: rest) lvl max_level parent).
Proof.
  remember (List.length pre) as n eqn:Hn.
  assert (Hle : (List.length pre <= n)%nat) by lia. clear Hn.
  revert pre Hle. induction n as [|n IH]; intros pre Hle.
  - destruct pre; [|cbn in Hle; lia].
    cbn [app]. rewrite info_nil, flat_app_nil_l. reflexivity.
  - destruct pre as [|[t' p'|cs] pre]; cbn [app].
    + rewrite info_nil, flat_app_nil_l. reflexivity.
    + cbn [List.length] in Hle.
      destruct (get_page_number p') as [pg|e] eqn:Hp'.
      * destruct pre as [|[t'' p''|cs] pre]; cbn [app].
        -- rewrite (info_leaf t' p' pg [] lvl parent Hp' I).
           rewrite (info_leaf t' p' pg (Destination t p :: rest) lvl parent Hp' I).
           rewrite info_nil, flat_app_nil_r. reflexivity.
        -- rewrite (info_leaf t' p' pg (Destination t'' p'' :: pre) lvl parent Hp' I).
           rewrite (info_leaf t' p' pg (Destination t'' p'' :: pre ++ Destination t p :: rest) lvl parent Hp' I).
           rewrite flat_app_assoc. f_equal.
           apply (IH (Destination t'' p'' :: pre)). lia.
        -- rewrite !(info_node t' p' pg) by exact Hp'.
           rewrite !flat_app_assoc. do 2 f_equal.
           apply IH. cbn [List.length] in Hle. lia.
      * rewrite !(info_raises t' p' e) by exact Hp'.
        rewrite flat_app_assoc. f_equal. apply IH. lia.
    + rewrite !info_sub. apply IH. cbn [List.length] in Hle. lia.
Qed.

End OutlineFacts.

(** C3, as the code has it.  When resolving the page of a node raises,
    the walk still returns: it records one diagnostic for the node,
    between the results of what comes before the node and of what comes
    behind it, and appends no entry for the node.  A nested list right
    behind the node, its children, is passed over: the children are not
    flattened. *)
Theorem unresolved_node_skipped (PageRef : Type)
    (get_page_number : PageRef -> Resolution) (max_level : Z)
    (pre : list (OutlineItem PageRef)) (t : string) (p : PageRef)
    (rest : list (OutlineItem PageRef)) (lvl : Z) (parent e : string) :
  get_page_number p = Raises e ->
  get_pdf_outline_info get_page_number (pre ++ Destination t p :: rest)
                       lvl max_level parent
  = flat_app (get_pdf_outline_info get_page_number pre lvl max_level parent)
      (flat_app ([], [InvalidBookmark t e])
         (get_pdf_outline_info get_page_number rest lvl max_level parent))
  /\ forall children rest',
       rest = SubOutline children :: rest' ->
       get_pdf_outline_info get_page_number rest lvl max_level parent
       = get_pdf_outline_info get_page_number rest' lvl max_level parent.
Proof.
  intros Hp. split.
  - rewrite info_app_destination.
    rewrite (info_raises PageRef get_page_number max_level t p e) by exact Hp.
    reflexivity.
  - intros children rest' ->. apply info_sub.
Qed.

Lemma unresolved_node_skipped_example :
  get_pdf_outline_info broken_at_99
    ([Destination "Intro" 0%nat]
     ++ Destination "A" 99%nat
        :: [SubOutline [Destination "A.1" 2%nat]; Destination "B" 5%nat])
    1 0 ""
  = flat_app (get_pdf_outline_info broken_at_99 [Destination "Intro" 0%nat] 1 0 "")
      (flat_app ([], [InvalidBookmark "A" "not found"])
         (get_pdf_outline_info broken_at_99
            [SubOutline [Destination "A.1" 2%nat]; Destination "B" 5%nat] 1 0 ""))
  /\ forall children rest',
       [SubOutline [Destination "A.1" 2%nat]; Destination "B" 5%nat]
       = SubOutline children :: rest' ->
       get_pdf_outline_info broken_at_99
         [SubOutline [Destination "A.1" 2%nat]; Destination "B" 5%nat] 1 0 ""
       = get_pdf_outline_info broken_at_99 rest' 1 0 "".
Proof.
  apply (unresolved_node_skipped nat broken_at_99 0
           [Destination "Intro" 0%nat] "A" 99%nat
           [SubOutline [Destination "A.1" 2%nat]; Destination "B" 5%nat]
           1 "" "not found").
  reflexivity.
Defined.

(** C3 as worded fails for the children: with unlimited depth and the
    page of A unresolvable, the walk of [A, [A.1], B] yields B alone,
    and A.1 is lost with A. *)
Lemma children_of_unresolved_node_lost :
  get_pdf_outline_info broken_at_99
    [Destination "A" 99%nat; SubOutline [Destination "A.1" 2%nat];
     Destination "B" 5%nat] 1 0 ""
  = ([mkEntry "B" (Some 5) "B"], [InvalidBookmark "A" "not found"])
  /\ ~ children_still_flattened broken_at_99
         [Destination "A" 99%nat; SubOutline [Destination "A.1" 2%nat];
          Destination "B" 5%nat] 0.
Proof.
  split; [reflexivity|].
  intros H.
  specialize (H [] "A" 99%nat [Destination "A.1" 2%nat]
                [Destination "B" 5%nat] "not found"
                eq_refl eq_refl eq_refl
                (mkEntry "A.1" (Some 2) "A - A.1")).
  cbn in H. destruct H as [H|[]]; [left; reflexivity|].
  discriminate H.
Qed.

(** ** The walk of an encoded tree *)

Section TreeFacts.

Variable PageRef : Type.
Variable resolve : PageRef -> option Z.
Variable max_level : Z.

Local Abbreviation info :=
  (get_pdf_outline_info (fun p : PageRef => Returns (resolve p))).

Lemma OutlineNode_forall_ind (P : OutlineNode PageRef -> Prop) :
  (forall t p cs, Forall P cs -> P (Node t p cs)) ->
  forall n, P n.
Proof.
  intros H. fix IH 1. intros [t p cs]. apply H.
  induction cs as [|c cs IHcs]; constructor.
  - apply IH.
  - exact IHcs.
Qed.

Lemma encode_forest_no_leading_sub (forest : list (OutlineNode PageRef)) :
  no_leading_sub (encode_forest forest).
Proof.
  destruct forest as [|[t p cs] forest]; exact I.
Qed.

Lemma forest_is_preorder (forest : list (OutlineNode PageRef)) :
  Forall (walk_is_preorder resolve max_level) forest ->
  forall lvl parent,
    info (encode_forest forest) lvl max_level parent
    = (preorder_forest resolve max_level forest lvl parent, []).
Proof.
  induction 1 as [|n forest Hn _ IH]; intros lvl parent.
  - reflexivity.
  - change (encode_forest (n :: forest))
      with (encode n ++ encode_forest forest).
    rewrite (Hn lvl parent _ (encode_forest_no_leading_sub forest)), IH.
    reflexivity.
Qed.

Lemma node_is_preorder (n : OutlineNode PageRef) :
  walk_is_preorder resolve max_level n.
Proof.
  induction n as [t p cs Hcs] using OutlineNode_forall_ind.
  intros lvl parent tail Htail.
  pose proof (forest_is_preorder cs Hcs) as Hforest.
  destruct cs as [|c cs].
  - cbn [encode app preorder flat_map].
    rewrite (info_leaf PageRef _ max_level t p (resolve p) tail lvl parent
               eq_refl Htail).
    destruct (may_descend lvl max_level); reflexivity.
  - cbn [encode app preorder].
    rewrite (info_node PageRef _ max_level t p (resolve p) _ tail lvl parent
               eq_refl).
    fold (encode_forest (c :: cs)).
    destruct (may_descend lvl max_level).
    + rewrite Hforest. unfold flat_app, preorder_forest. cbn [fst snd app].
      reflexivity.
    + rewrite flat_app_nil_l. reflexivity.
Qed.

End TreeFacts.

(** C5, as the code has it.  With every target resolvable, the walk of
    an encoded outline tree is its depth-first pre-order within the depth
    limit: each node's entry, right behind it the entries of its
    children, siblings in their order, and no diagnostic.  An entry's
    path name is its parent's path name joined to its title with " - ",
    or the title alone when the parent's path name is empty, as it is
    for every top-level node. *)
Theorem flatten_is_preorder (PageRef : Type) (resolve : PageRef -> option Z)
    (max_level : Z) (forest : list (OutlineNode PageRef)) (lvl : Z)
    (parent : string) :
  get_pdf_outline_info (fun p => Returns (resolve p)) (encode_forest forest)
                       lvl max_level parent
  = (preorder_forest resolve max_level forest lvl parent, []).
Proof.
  apply forest_is_preorder.
  apply Forall_forall. intros n _. apply node_is_preorder.
Qed.

(** C5 as worded fails below a node whose path name is empty: the child
    x of a top-level bookmark with an empty title is named x, not the
    parent's path joined to it. *)
Lemma child_of_untitled_node_unjoined :
  fst (get_pdf_outline_info (fun p => Returns (Some p))
         (encode_forest [Node "" 0 [Node "x" 1 []]]) 1 0 "")
  = [mkEntry "" (Some 0) ""; mkEntry "x" (Some 1) "x"]
  /\ flat_map (fun n => preorder_top_level_rule Some 0 n 1 None)
              [Node "" 0 [Node "x" 1 []]]
     = [mkEntry "" (Some 0) ""; mkEntry "x" (Some 1) " - x"]
  /\ fst (get_pdf_outline_info (fun p => Returns (Some p))
            (encode_forest [Node "" 0 [Node "x" 1 []]]) 1 0 "")
     <> flat_map (fun n => preorder_top_level_rule Some 0 n 1 None)
                 [Node "" 0 [Node "x" 1 []]].
Proof.
  split; [reflexivity|]. split; [reflexivity|].
  cbn. intros H. discriminate H.
Qed.

(** A page that resolves to [None] is not a failure of the walk: the
    entry is appended, the children are flattened, and the caller's
    filter removes the entry afterwards. *)
Example flatten_page_none :
  get_pdf_outline_info (fun p : nat => if (p =? 7)%nat then Returns None
                                       else Returns (Some (Z.of_nat p)))
    [Destination "A" 7%nat; SubOutline [Destination "A.1" 2%nat]] 1 0 ""
  = ([mkEntry "A" None "A"; mkEntry "A.1" (Some 2) "A - A.1"], [])
  /\ resolved_bookmarks
       [mkEntry "A" None "A"; mkEntry "A.1" (Some 2) "A - A.1"]
     = [mkBookmark "A.1" 2 "A - A.1"].
Proof. split; reflexivity. Qed.

Example flatten_depth_one :
  fst (get_pdf_outline_info (fun p => Returns (Some p))
         (encode_forest [Node "A" 0 [Node "A.1" 2 []]; Node "B" 5 []]) 1 1 "")
  = [mkEntry "A" (Some 0) "A"; mkEntry "B" (Some 5) "B"].
Proof. reflexivity. Qed.

(** ** More on [calculate_page_ranges] *)

Lemma ranges_from_start_pages (l : list Bookmark) (total_pages p : Z) :
  Sorted page_le l ->
  In p (map start_page (ranges_from l total_pages))
  <-> In p (map (fun b => page_index b + 1) l).
Proof.
  induction l as [|h l IH]; intros Hs; [reflexivity|].
  inversion Hs as [|? ? Hs' Hhd]; subst. specialize (IH Hs').
  destruct l as [|n r].
  - cbn [ranges_from]. rewrite section_of_final. reflexivity.
  - inversion Hhd as [|? ? Hle]; subst.
    change (ranges_from (h :: n :: r) total_pages)
      with (section_of h (n :: r) total_pages ++ ranges_from (n :: r) total_pages).
    destruct (section_of_cases h n r total_pages Hle) as [[_ E]|[Heq E]];
      rewrite E; cbn [app].
    + change (In p (map start_page (?s :: ?ss)))
        with (start_page s = p \/ In p (map start_page ss)).
      change (In p (map (fun b => page_index b + 1) (h :: n :: r)))
        with (page_index h + 1 = p
              \/ In p (map (fun b => page_index b + 1) (n :: r))).
      rewrite IH. reflexivity.
    + rewrite IH. cbn [map In]. rewrite Heq. tauto.
Qed.

(** X1.  The sections start exactly on the pages the bookmarks point to:
    a page number is the [start_page] of a section if and only if some
    bookmark has that page (as [page_index + 1]). *)
Theorem start_pages_are_bookmark_pages (outline_info : list Bookmark)
    (total_pages p : Z) :
  In p (map start_page (calculate_page_ranges outline_info total_pages))
  <-> exists b, In b outline_info /\ p = page_index b + 1.
Proof.
  rewrite calculate_page_ranges_rec.
  rewrite ranges_from_start_pages by apply sort_by_page_sorted.
  rewrite in_map_iff. split.
  - intros (b & Hp & Hb). exists b. split; [|lia].
    apply sort_by_page_In. exact Hb.
  - intros (b & Hb & Hp). exists b. split; [lia|].
    apply sort_by_page_In. exact Hb.
Qed.

Lemma strictly_ascending_NoDup (l : list Z) :
  StronglySorted Z.lt l -> NoDup l.
Proof.
  induction 1 as [|x l Hl IH Hx]; constructor.
  - intros Hin. rewrite Forall_forall in Hx. specialize (Hx x Hin). lia.
  - exact IH.
Qed.

(** X2.  There is one section for each distinct page the bookmarks point
    to, however many bookmarks share a page. *)
Theorem one_section_per_distinct_page (outline_info : list Bookmark)
    (total_pages : Z) :
  List.length (calculate_page_ranges outline_info total_pages)
  = List.length (nodup Z.eq_dec (map page_index outline_info)).
Proof.
  rewrite <- (length_map start_page).
  rewrite <- (length_map (fun p => p + 1) (nodup _ _)).
  apply Permutation_length, NoDup_Permutation.
  - apply strictly_ascending_NoDup.
    rewrite calculate_page_ranges_rec.
    apply follows_on_ascending, ranges_from_chain, sort_by_page_sorted.
  - apply Finite.Injective_map_NoDup; [intros x y; lia|].
    apply NoDup_nodup.
  - intros p. rewrite calculate_page_ranges_rec.
    rewrite ranges_from_start_pages by apply sort_by_page_sorted.
    rewrite !in_map_iff. split.
    + intros (b & <- & Hb). exists (page_index b). split; [reflexivity|].
      apply nodup_In, in_map, sort_by_page_In. exact Hb.
    + intros (q & <- & Hq). apply nodup_In, in_map_iff in Hq.
      destruct Hq as (b & <- & Hb). exists b. split; [reflexivity|].
      apply sort_by_page_In. exact Hb.
Qed.

Lemma ranges_from_origin (l : list Bookmark) (total_pages : Z) (s : Section_) :
  Sorted page_le l ->
  In s (ranges_from l total_pages) ->
  exists pre h post,
    l = pre ++ h :: post
    /\ name s = title h
    /\ sec_full_path_name s = full_path_name h
    /\ start_page s = page_index h + 1
    /\ Forall (fun x => page_index h < page_index x) post.
Proof.
  induction l as [|h l IH]; intros Hs Hin; [destruct Hin|].
  pose proof (page_le_strongly_sorted _ Hs) as Hss.
  inversion Hs as [|? ? Hs' Hhd]; subst.
  cbn [ranges_from] in Hin. apply in_app_or in Hin. destruct Hin as [Hin|Hin].
  - exists [], h, l. cbn [app]. split; [reflexivity|].
    destruct l as [|n r].
    + rewrite section_of_final in Hin. destruct Hin as [<-|[]].
      repeat split. constructor.
    + inversion Hhd as [|? ? Hle]; subst.
      destruct (section_of_cases h n r total_pages Hle) as [[Hlt E]|[_ E]];
        rewrite E in Hin; [|destruct Hin].
      destruct Hin as [<-|[]]. repeat split.
      inversion Hss as [|? ? Hss' _]; subst.
      inversion Hss' as [|? ? _ Hn]; subst.
      constructor; [exact Hlt|].
      eapply Forall_impl; [|exact Hn].
      intros x Hx. unfold page_le in Hx. lia.
  - destruct (IH Hs' Hin) as (pre & h' & post & -> & Hrest).
    exists (h :: pre), h', post. split; [reflexivity|exact Hrest].
Qed.

Lemma filter_none_above (k : Z) (post : list Bookmark) :
  Forall (fun x => k < page_index x) post ->
  filter (fun x => page_index x =? k) post = [].
Proof.
  induction 1 as [|x post Hx _ IH]; cbn [filter]; [reflexivity|].
  replace (page_index x =? k) with false by (symmetry; apply Z.eqb_neq; lia).
  exact IH.
Qed.

(** X3.  A section is named after the last bookmark, in the order of the
    input list, that points to its start page: the bookmarks of the
    input on that page end with the one whose title and path name the
    section carries. *)
Theorem section_named_after_last_of_page (outline_info : list Bookmark)
    (total_pages : Z) (s : Section_) :
  In s (calculate_page_ranges outline_info total_pages) ->
  exists front b,
    filter (fun x => page_index x =? start_page s - 1) outline_info
    = front ++ [b]
    /\ name s = title b
    /\ sec_full_path_name s = full_path_name b.
Proof.
  rewrite calculate_page_ranges_rec. intros Hin.
  destruct (ranges_from_origin _ _ _ (sort_by_page_sorted outline_info) Hin)
    as (pre & h & post & Hsort & Hname & Hpath & Hstart & Hpost).
  exists (filter (fun x => page_index x =? page_index h) pre), h.
  split; [|split; assumption].
  replace (start_page s - 1) with (page_index h) by lia.
  rewrite <- sort_by_page_stable, Hsort, filter_app. cbn [filter].
  rewrite Z.eqb_refl, (filter_none_above _ _ Hpost). reflexivity.
Qed.

Lemma section_named_after_last_of_page_example :
  exists front b,
    filter (fun x => page_index x =? start_page (mkSection "B" "B" 4 5) - 1)
           [mkBookmark "C" 5 "C"; mkBookmark "A" 3 "A"; mkBookmark "B" 3 "B"]
    = front ++ [b]
    /\ name (mkSection "B" "B" 4 5) = title b
    /\ sec_full_path_name (mkSection "B" "B" 4 5) = full_path_name b.
Proof.
  apply (section_named_after_last_of_page
           [mkBookmark "C" 5 "C"; mkBookmark "A" 3 "A"; mkBookmark "B" 3 "B"]
           10 (mkSection "B" "B" 4 5)).
  vm_compute. left. reflexivity.
Defined.

Lemma ranges_from_well_formed (l : list Bookmark) (h : Bookmark)
    (total_pages : Z) :
  Sorted page_le (h :: l) ->
  (forall s, In s (ranges_from (h :: l) total_pages) ->
             start_page s <= end_page s)
  <-> (forall b, In b (h :: l) -> page_index b < total_pages).
Proof.
  revert h. induction l as [|n r IH]; intros h Hs.
  - cbn [ranges_from]. rewrite section_of_final. cbn [app]. split.
    + intros H b [<-|[]]. specialize (H _ (or_introl eq_refl)).
      cbn in H. lia.
    + intros H s [<-|[]]. specialize (H _ (or_introl eq_refl)).
      cbn. lia.
  - inversion Hs as [|? ? Hs' Hhd]; subst.
    inversion Hhd as [|? ? Hle]; subst.
    specialize (IH n Hs').
    change (ranges_from (h :: n :: r) total_pages)
      with (section_of h (n :: r) total_pages ++ ranges_from (n :: r) total_pages).
    destruct (section_of_cases h n r total_pages Hle) as [[Hlt E]|[Heq E]];
      rewrite E; cbn [app]; split.
    + intros H b [<-|Hb].
      * assert (page_index n < total_pages)
          by (apply IH; [intros s Hs0; apply H; right; exact Hs0 | left; reflexivity]).
        lia.
      * apply IH; [intros s Hs0; apply H; right; exact Hs0 | exact Hb].
    + intros H s [<-|Hs0].
      * cbn. lia.
      * apply IH; [intros b Hb; apply H; right; exact Hb | exact Hs0].
    + intros H b [<-|Hb].
      * rewrite Heq. apply IH; [exact H | left; reflexivity].
      * apply IH; [exact H | exact Hb].
    + intros H s Hs0.
      apply IH; [intros b Hb; apply H; right; exact Hb | exact Hs0].
Qed.

(** X4.  All computed ranges are well formed ([start_page <= end_page])
    exactly when every bookmark points inside the document
    ([page_index < total_pages]); a bookmark at or beyond [total_pages]
    leaves the last section with its start behind its end. *)
Theorem ranges_well_formed_iff_inside (outline_info : list Bookmark)
    (total_pages : Z) :
  (forall s, In s (calculate_page_ranges outline_info total_pages) ->
             start_page s <= end_page s)
  <-> (forall b, In b outline_info -> page_index b < total_pages).
Proof.
  rewrite calculate_page_ranges_rec.
  pose proof (sort_by_page_sorted outline_info) as Hs.
  assert (Hin : forall b, In b (sort_by_page outline_info) <-> In b outline_info)
    by (intros b; apply sort_by_page_In).
  destruct (sort_by_page outline_info) as [|h l].
  - split.
    + intros _ b Hb. apply Hin in Hb. destruct Hb.
    + intros _ s [].
  - rewrite (ranges_from_well_formed l h total_pages Hs). split.
    + intros H b Hb. apply H, Hin, Hb.
    + intros H b Hb. apply H, Hin, Hb.
Qed.

Lemma sorted_distinct_unique (l1 l2 : list Bookmark) :
  Sorted page_le l1 -> Sorted page_le l2 ->
  Permutation l1 l2 ->
  NoDup (map page_index l1) ->
  l1 = l2.
Proof.
  revert l2. induction l1 as [|x l1 IH]; intros l2 Hs1 Hs2 Hp Hnd.
  - apply Permutation_nil in Hp. subst. reflexivity.
  - destruct l2 as [|y l2];
      [apply Permutation_sym, Permutation_nil in Hp; discriminate|].
    pose proof (page_le_strongly_sorted _ Hs1) as Hss1.
    pose proof (page_le_strongly_sorted _ Hs2) as Hss2.
    inversion Hss1 as [|? ? _ Hx]; subst.
    inversion Hss2 as [|? ? _ Hy]; subst.
    rewrite Forall_forall in Hx, Hy.
    inversion Hnd as [|? ? Hnotin Hnd']; subst.
    assert (Hxy : x = y).
    { assert (Hyin : In y (x :: l1))
        by (eapply Permutation_in; [apply Permutation_sym, Hp | left; reflexivity]).
      assert (Hxin : In x (y :: l2))
        by (eapply Permutation_in; [apply Hp | left; reflexivity]).
      destruct Hyin as [E|Hyin]; [exact E|].
      destruct Hxin as [E|Hxin]; [symmetry; exact E|].
      pose proof (Hx y Hyin) as H1. pose proof (Hy x Hxin) as H2.
      unfold page_le in H1, H2.
      exfalso. apply Hnotin.
      replace (page_index x) with (page_index y) by lia.
      apply in_map. exact Hyin. }
    subst y. f_equal.
    apply IH.
    + inversion Hs1; assumption.
    + inversion Hs2; assumption.
    + eapply Permutation_cons_inv. exact Hp.
    + exact Hnd'.
Qed.

(** X5.  When no two bookmarks share a page, the order of the bookmarks
    in the input does not matter: any rearrangement of the list gives
    the same sections. *)
Theorem ranges_independent_of_order (l1 l2 : list Bookmark) (total_pages : Z) :
  Permutation l1 l2 ->
  NoDup (map page_index l1) ->
  calculate_page_ranges l1 total_pages = calculate_page_ranges l2 total_pages.
Proof.
  intros Hp Hnd. rewrite !calculate_page_ranges_rec. f_equal.
  apply sorted_distinct_unique.
  - apply sort_by_page_sorted.
  - apply sort_by_page_sorted.
  - eapply perm_trans; [apply Permutation_sym, sort_by_page_perm|].
    eapply perm_trans; [exact Hp|]. apply sort_by_page_perm.
  - eapply Permutation_NoDup; [|exact Hnd].
    apply Permutation_map, sort_by_page_perm.
Qed.

Lemma ranges_independent_of_order_example :
  calculate_page_ranges
    [mkBookmark "A" 0 "A"; mkBookmark "B" 3 "B"; mkBookmark "C" 5 "C"] 8
  = calculate_page_ranges
      [mkBookmark "C" 5 "C"; mkBookmark "A" 0 "A"; mkBookmark "B" 3 "B"] 8.
Proof.
  apply ranges_independent_of_order.
  - apply Permutation_sym.
    apply (Permutation_cons_app [_; _] [] _ (Permutation_refl _)).
  - repeat constructor; simpl; intuition discriminate.
Defined.

(** ** More on [perform_pdf_split] *)

Section SplitFacts.

Variable Page : Type.
Variable Path : Type.
Variable fs : FileSystem Path.
Variable output_dir : Path.

Lemma split_counts (pages : list Page) (num_digits : nat)
    (add_sequence : bool) (max_level : Z) (sections : list Section_) (i : nat) :
  let results :=
    map (fun p => split_section pages num_digits add_sequence max_level
                                (fst p) (snd p))
        (enumerate_from i sections) in
  List.length (List.concat (map fst results))
  = List.length (filter (fun s => negb (invalid_range pages s)) sections)
  /\ List.length (List.concat (map snd results))
     = List.length (filter (invalid_range pages) sections).
Proof.
  revert i. induction sections as [|s sections IH]; intros i.
  - split; reflexivity.
  - destruct (IH (S i)) as [IH1 IH2].
    cbn [enumerate_from map fst snd List.concat filter].
    unfold split_section at 1 3.
    destruct (invalid_range pages s); cbn [fst snd negb app List.length];
      split; congruence.
Qed.

Lemma filter_valid_invalid (pages : list Page) (sections : list Section_) :
  (List.length (filter (fun s => negb (invalid_range pages s)) sections)
   + List.length (filter (invalid_range pages) sections)
   = List.length sections)%nat.
Proof.
  induction sections as [|s sections IH]; [reflexivity|].
  cbn [filter List.length].
  destruct (invalid_range pages s); cbn [negb List.length]; lia.
Qed.

(** X6.  A run never makes more writes than there are sections that
    pass the range check, nor prints more diagnostics than there are
    sections that fail it.  When it ends without an exception, every
    section is either written or reported, never both and never
    neither: the writes are as many as the sections that pass the
    check, the diagnostics as many as those that fail it. *)
Theorem section_written_or_reported (pages : list Page)
    (sections : list Section_) (add_sequence : bool) (max_level : Z) :
  (List.length (written (perform_pdf_split fs pages sections output_dir
                                           add_sequence max_level))
   <= List.length (filter (fun s => negb (invalid_range pages s)) sections))%nat
  /\ (List.length (reported (perform_pdf_split fs pages sections output_dir
                                               add_sequence max_level))
      <= List.length (filter (invalid_range pages) sections))%nat
  /\ (raised (perform_pdf_split fs pages sections output_dir add_sequence
                                max_level) = None ->
      List.length (written (perform_pdf_split fs pages sections output_dir
                                              add_sequence max_level))
      = List.length (filter (fun s => negb (invalid_range pages s)) sections)
      /\ List.length (reported (perform_pdf_split fs pages sections output_dir
                                                  add_sequence max_level))
         = List.length (filter (invalid_range pages) sections)
      /\ (List.length (written (perform_pdf_split fs pages sections output_dir
                                                  add_sequence max_level))
          + List.length (reported (perform_pdf_split fs pages sections
                                     output_dir add_sequence max_level))
          = List.length sections)%nat).
Proof.
  destruct (perform_plan Page Path fs output_dir pages sections add_sequence
              max_level) as (more_files & more_log & Hf & Hl & Hnone).
  destruct (split_counts pages (String.length (str (List.length sections)))
              add_sequence max_level sections 0) as [H1 H2].
  cbn zeta in H1, H2.
  unfold split_plan, enumerate in Hf, Hl. cbn [fst snd] in Hf, Hl.
  rewrite Hf, length_app in H1. rewrite Hl, length_app in H2.
  split; [lia|]. split; [lia|].
  intros Hr. destruct (Hnone Hr) as [-> ->]. cbn [List.length] in H1, H2.
  pose proof (filter_valid_invalid pages sections). lia.
Qed.

Lemma page_at_middle (pre mid post : list Page) :
  flat_map (page_at (pre ++ mid ++ post))
           (map Z.of_nat (seq (List.length pre) (List.length mid)))
  = mid.
Proof.
  revert pre. induction mid as [|pg mid IH]; intros pre.
  - reflexivity.
  - cbn [List.length seq map flat_map].
    unfold page_at at 1. rewrite Nat2Z.id.
    rewrite nth_error_app2 by lia. rewrite Nat.sub_diag. cbn [nth_error app].
    f_equal.
    specialize (IH (pre ++ [pg])).
    rewrite <- app_assoc, length_app in IH. cbn [app List.length] in IH.
    replace (List.length pre + 1)%nat with (S (List.length pre)) in IH by lia.
    exact IH.
Qed.

(** Inside the document, copying an index range takes the slice. *)
Lemma copy_pages_slice (pages : list Page) (lo hi : Z) :
  0 <= lo -> lo <= hi -> hi <= Z.of_nat (List.length pages) ->
  copy_pages pages lo hi
  = firstn (Z.to_nat (hi - lo)) (skipn (Z.to_nat lo) pages).
Proof.
  intros H0 H1 H2.
  set (n := Z.to_nat (hi - lo)). set (k := Z.to_nat lo).
  set (mid := firstn n (skipn k pages)).
  assert (Hpages : pages = firstn k pages ++ mid ++ skipn n (skipn k pages)).
  { unfold mid. rewrite (firstn_skipn n), (firstn_skipn k). reflexivity. }
  assert (Hk : List.length (firstn k pages) = k)
    by (rewrite length_firstn; lia).
  assert (Hn : List.length mid = n).
  { unfold mid. rewrite length_firstn, length_skipn. lia. }
  unfold copy_pages, range. fold n.
  rewrite (map_ext (fun j => lo + Z.of_nat j)
                   (fun j => Z.of_nat (k + j)%nat)) by (intros j; lia).
  rewrite <- (map_map (fun j => (k + j)%nat) Z.of_nat), seq_offset.
  rewrite Nat.add_0_r.
  pose proof (page_at_middle (firstn k pages) mid (skipn n (skipn k pages)))
    as Hmid.
  rewrite Hk, Hn, <- Hpages in Hmid. exact Hmid.
Qed.

(** X7.  A written file holds exactly the pages [start_page] to
    [end_page] of the document, in order: the slice of [end_page -
    start_page + 1] pages behind the first [start_page - 1], which is at
    least one page. *)
Theorem written_file_is_slice (pages : list Page) (sections : list Section_)
    (add_sequence : bool) (max_level : Z) (f : OutputFile Page) :
  In f (written (perform_pdf_split fs pages sections output_dir add_sequence
                                   max_level)) ->
  exists section,
    In section sections
    /\ 1 <= start_page section
    /\ start_page section <= end_page section
    /\ end_page section <= Z.of_nat (List.length pages)
    /\ file_pages f
       = firstn (Z.to_nat (end_page section - start_page section + 1))
                (skipn (Z.to_nat (start_page section - 1)) pages)
    /\ Z.of_nat (List.length (file_pages f))
       = end_page section - start_page section + 1.
Proof.
  intros Hin. apply written_in_plan in Hin.
  destruct (split_written Page pages sections add_sequence max_level f Hin)
    as (i & section & Hnth & Hvalid & ->).
  exists section. split; [eapply nth_error_In; exact Hnth|].
  unfold invalid_range in Hvalid. rewrite !orb_false_iff in Hvalid.
  destruct Hvalid as [[Hlo Hhi] Hord].
  apply Z.ltb_ge in Hlo.
  rewrite Z.geb_leb in Hhi. apply Z.leb_gt in Hhi.
  rewrite Z.gtb_ltb in Hord. apply Z.ltb_ge in Hord.
  split; [lia|]. split; [lia|]. split; [lia|].
  cbn [file_pages]. rewrite copy_pages_slice by lia.
  replace (end_page section - 1 + 1 - (start_page section - 1))
    with (end_page section - start_page section + 1) by lia.
  split; [reflexivity|].
  rewrite length_firstn, length_skipn. lia.
Qed.

End SplitFacts.

Lemma written_file_is_slice_example :
  exists section,
    In section [mkSection "A" "A" 1 1; mkSection "B" "B" 2 3]
    /\ 1 <= start_page section
    /\ start_page section <= end_page section
    /\ end_page section <= Z.of_nat (List.length ["p1"; "p2"; "p3"])
    /\ file_pages (mkOutput "2_B.pdf" ["p2"; "p3"])
       = firstn (Z.to_nat (end_page section - start_page section + 1))
                (skipn (Z.to_nat (start_page section - 1)) ["p1"; "p2"; "p3"])
    /\ Z.of_nat (List.length (file_pages (mkOutput "2_B.pdf" ["p2"; "p3"])))
       = end_page section - start_page section + 1.
Proof.
  apply (written_file_is_slice string string never_fails "out"
           ["p1"; "p2"; "p3"]
           [mkSection "A" "A" 1 1; mkSection "B" "B" 2 3] true 1
           (mkOutput "2_B.pdf" ["p2"; "p3"])).
  vm_compute. right. left. reflexivity.
Defined.

Lemma append_same_length_inj (a a' b b' : string) :
  String.length a = String.length a' ->
  (a ++ b)%string = (a' ++ b')%string ->
  a = a'.
Proof.
  revert a'. induction a as [|c a IH]; intros [|c' a'] Hlen Heq;
    cbn [String.length] in Hlen; try discriminate.
  - reflexivity.
  - cbn [append] in Heq. inversion Heq; subst. f_equal.
    apply IH; [lia | assumption].
Qed.

(** Two positions of one list never get the same numbered name. *)
Lemma output_filename_inj (total : nat) (max_level : Z) (i j : nat)
    (s s' : Section_) :
  (i < total)%nat -> (j < total)%nat ->
  output_filename (String.length (str total)) true max_level i s
  = output_filename (String.length (str total)) true max_level j s' ->
  i = j.
Proof.
  intros Hi Hj Heq. unfold output_filename in Heq.
  rewrite !append_assoc in Heq.
  apply append_same_length_inj in Heq.
  - apply (f_equal int) in Heq. rewrite !int_format_index in Heq. lia.
  - rewrite !length_format_index; [reflexivity| |];
      apply length_str_le; lia.
Qed.

Section NamesFacts.

Variable Page : Type.
Variable Path : Type.
Variable fs : FileSystem Path.
Variable output_dir : Path.

Lemma split_names_from (pages : list Page) (num_digits : nat)
    (add_sequence : bool) (max_level : Z) (sections : list Section_)
    (k : nat) (f : OutputFile Page) :
  In f (List.concat
          (map fst
             (map (fun p => split_section pages num_digits add_sequence
                                          max_level (fst p) (snd p))
                  (enumerate_from k sections)))) ->
  exists i section,
    (k <= i < k + List.length sections)%nat
    /\ filename f
       = output_filename num_digits add_sequence max_level i section.
Proof.
  revert k. induction sections as [|s sections IH]; intros k Hin.
  - destruct Hin.
  - cbn [enumerate_from map fst snd List.concat] in Hin.
    apply in_app_or in Hin. destruct Hin as [Hin|Hin].
    + unfold split_section in Hin.
      destruct (invalid_range pages s); cbn [fst] in Hin; [destruct Hin|].
      destruct Hin as [<-|[]]. exists k, s. cbn [List.length filename].
      split; [lia | reflexivity].
    + destruct (IH (S k) Hin) as (i & section & Hi & Hname).
      exists i, section. cbn [List.length]. split; [lia | exact Hname].
Qed.

Lemma split_names_NoDup (pages : list Page) (total : nat) (max_level : Z)
    (sections : list Section_) (k : nat) :
  (k + List.length sections <= total)%nat ->
  NoDup (map filename
           (List.concat
              (map fst
                 (map (fun p => split_section pages (String.length (str total))
                                              true max_level (fst p) (snd p))
                      (enumerate_from k sections))))).
Proof.
  revert k. induction sections as [|s sections IH]; intros k Hk.
  - constructor.
  - cbn [List.length] in Hk.
    cbn [enumerate_from map fst snd List.concat].
    unfold split_section at 1.
    destruct (invalid_range pages s); cbn [fst app]; [apply IH; lia|].
    cbn [map filename]. constructor; [|apply IH; lia].
    intros Hin. apply in_map_iff in Hin. destruct Hin as (f & Hname & Hf).
    apply split_names_from in Hf. destruct Hf as (i & section & Hi & Hfi).
    rewrite Hfi in Hname.
    apply output_filename_inj in Hname; lia.
Qed.

Lemma plan_names_NoDup (pages : list Page) (sections : list Section_)
    (max_level : Z) :
  NoDup (map filename (fst (split_plan pages sections true max_level))).
Proof.
  unfold split_plan, enumerate. cbn [fst].
  apply split_names_NoDup. lia.
Qed.

(** X8.  With the sequence prefix no two written files have the same
    name, whatever the titles are, so no file of a run overwrites
    another. *)
Theorem numbered_filenames_distinct (pages : list Page)
    (sections : list Section_) (max_level : Z) :
  NoDup (map filename
           (written (perform_pdf_split fs pages sections output_dir true
                                       max_level))).
Proof.
  destruct (perform_plan Page Path fs output_dir pages sections true
              max_level) as (more_files & _ & Hf & _).
  pose proof (plan_names_NoDup pages sections max_level) as Hnd.
  rewrite Hf, map_app in Hnd.
  apply NoDup_app_remove_r in Hnd. exact Hnd.
Qed.

End NamesFacts.

(** Without the prefix two sections with one cleaned name share a file. *)
Example unnumbered_filenames_collide :
  map filename
    (written (perform_pdf_split never_fails (seq 0 4)
                [mkSection "A?" "A?" 1 2; mkSection "A" "A" 3 4]
                "out" false 1))
  = ["A.pdf"; "A.pdf"].
Proof. vm_compute. reflexivity. Qed.

(** ** The cleaned name *)

Lemma clean_name_no_illegal (s : string) (c : ascii) :
  In c (list_ascii_of_string (clean_name s)) -> is_illegal c = false.
Proof.
  rewrite clean_name_filter, filter_In. intros [_ H].
  destruct (is_illegal c); [discriminate | reflexivity].
Qed.

Lemma clean_name_unchanged (s : string) :
  (forall c, In c (list_ascii_of_string s) -> is_illegal c = false) ->
  clean_name s = s.
Proof.
  induction s as [|c s IH]; intros H; cbn [clean_name]; [reflexivity|].
  rewrite (H c (or_introl eq_refl)). f_equal.
  apply IH. intros c' Hc'. apply H. right. exact Hc'.
Qed.

(** X9.  The cleaned name holds none of the nine characters, keeps every
    other character in place, is never longer than the name, and
    cleaning it again changes nothing. *)
Theorem clean_name_sound (s : string) :
  (forall c, In c (list_ascii_of_string (clean_name s)) ->
             ~ In c illegal_chars)
  /\ (forall c, ~ In c illegal_chars ->
                filter (Ascii.eqb c) (list_ascii_of_string (clean_name s))
                = filter (Ascii.eqb c) (list_ascii_of_string s))
  /\ (String.length (clean_name s) <= String.length s)%nat
  /\ clean_name (clean_name s) = clean_name s.
Proof.
  split; [|split; [|split]].
  - intros c Hc Hill. apply is_illegal_In in Hill.
    rewrite (clean_name_no_illegal s c Hc) in Hill. discriminate.
  - intros c Hc. rewrite clean_name_filter.
    induction (list_ascii_of_string s) as [|x l IH]; [reflexivity|].
    cbn [filter]. destruct (is_illegal x) eqn:Ex; cbn [negb filter].
    + destruct (Ascii.eqb c x) eqn:Ecx; [|exact IH].
      apply Ascii.eqb_eq in Ecx. subst x.
      apply is_illegal_In in Ex. contradiction.
    + rewrite IH. reflexivity.
  - induction s as [|c s IH]; cbn [clean_name String.length]; [lia|].
    destruct (is_illegal c); cbn [String.length]; lia.
  - apply clean_name_unchanged. apply clean_name_no_illegal.
Qed.

(** ** Coverage from the first bookmark on *)

Lemma plan_of_sorted (Page : Type) (pages : list Page)
    (add_sequence : bool) (max_level : Z)
    (first : Bookmark) (rest : list Bookmark) :
  Sorted page_le (first :: rest) ->
  (forall b, In b (first :: rest) ->
             0 <= page_index b < Z.of_nat (List.length pages)) ->
  List.concat
    (map file_pages
       (fst (split_plan pages
               (ranges_from (first :: rest) (Z.of_nat (List.length pages)))
               add_sequence max_level)))
  = skipn (Z.to_nat (page_index first)) pages
  /\ snd (split_plan pages
            (ranges_from (first :: rest) (Z.of_nat (List.length pages)))
            add_sequence max_level)
     = [].
Proof.
  intros Hs Hb.
  assert (Hlt : forall b, In b (first :: rest) ->
                          page_index b < Z.of_nat (List.length pages))
    by (intros b Hb0; apply Hb; exact Hb0).
  pose proof (Hb first (or_introl eq_refl)) as Hfirst.
  assert (Hnum := ranges_from_page_numbers rest first _ Hs Hlt).
  assert (Hvalid := ranges_from_valid Page pages rest first Hs ltac:(lia) Hlt).
  destruct (split_all_valid Page pages
              (String.length (str (List.length
                 (ranges_from (first :: rest) (Z.of_nat (List.length pages))))))
              add_sequence max_level _ 0%nat Hvalid) as [Hfiles Hlog].
  unfold split_plan, enumerate. cbn [fst snd].
  split; [|exact Hlog].
  rewrite Hfiles.
  rewrite (map_ext _ (fun s => map (fun k => k + -1) (section_page_numbers s))).
  - rewrite <- (map_map section_page_numbers (map (fun k => k + -1))).
    rewrite <- concat_map, Hnum, range_shift.
    replace (page_index first + 1 + -1) with (page_index first) by lia.
    replace (Z.of_nat (List.length pages) + 1 + -1)
      with (Z.of_nat (List.length pages)) by lia.
    rewrite <- copy_pages_page_at, copy_pages_slice by lia.
    apply firstn_all2. rewrite length_skipn. lia.
  - intros s. unfold section_page_numbers. rewrite range_shift.
    f_equal; lia.
Qed.

(** A run that raised nothing carried out its plan. *)
Lemma completed_run_is_plan (Page Path : Type) (fs : FileSystem Path)
    (pages : list Page) (sections : list Section_) (output_dir : Path)
    (add_sequence : bool) (max_level : Z) :
  raised (perform_pdf_split fs pages sections output_dir add_sequence
                            max_level) = None ->
  written (perform_pdf_split fs pages sections output_dir add_sequence
                             max_level)
  = fst (split_plan pages sections add_sequence max_level)
  /\ reported (perform_pdf_split fs pages sections output_dir add_sequence
                                 max_level)
     = snd (split_plan pages sections add_sequence max_level).
Proof.
  intros Hr.
  destruct (perform_plan Page Path fs output_dir pages sections add_sequence
              max_level) as (more_files & more_log & Hf & Hl & Hnone).
  destruct (Hnone Hr) as [-> ->]. rewrite !app_nil_r in *.
  split; symmetry; assumption.
Qed.

(** X10.  With the sequence prefix, when every bookmark points inside
    the document and the run ends without an exception, no section is
    skipped, the files have pairwise different names, and they hold, one
    after the other, every page from the first bookmarked page to the
    end of the document, each once and in order.  The pages in front of
    the first bookmark are in no file. *)
Theorem files_cover_from_first_bookmark (Page Path : Type)
    (fs : FileSystem Path) (pages : list Page)
    (outline_info : list Bookmark) (output_dir : Path) (max_level : Z)
    (first : Bookmark) (rest : list Bookmark) :
  sort_by_page outline_info = first :: rest ->
  (forall b, In b outline_info ->
             0 <= page_index b < Z.of_nat (List.length pages)) ->
  raised (perform_pdf_split fs pages
            (calculate_page_ranges outline_info (Z.of_nat (List.length pages)))
            output_dir true max_level) = None ->
  List.concat
    (map file_pages
       (written (perform_pdf_split fs pages
                   (calculate_page_ranges outline_info
                                          (Z.of_nat (List.length pages)))
                   output_dir true max_level)))
  = skipn (Z.to_nat (page_index first)) pages
  /\ reported (perform_pdf_split fs pages
                 (calculate_page_ranges outline_info
                                        (Z.of_nat (List.length pages)))
                 output_dir true max_level)
     = []
  /\ NoDup (map filename
              (written (perform_pdf_split fs pages
                          (calculate_page_ranges outline_info
                                                 (Z.of_nat (List.length pages)))
                          output_dir true max_level))).
Proof.
  intros Hsort Hin Hr.
  destruct (completed_run_is_plan Page Path fs pages _ output_dir true
              max_level Hr) as [-> ->].
  split; [|split].
  - rewrite calculate_page_ranges_rec, Hsort.
    apply plan_of_sorted.
    + rewrite <- Hsort. apply sort_by_page_sorted.
    + intros b Hb. apply Hin. apply sort_by_page_In.
      rewrite Hsort. exact Hb.
  - rewrite calculate_page_ranges_rec, Hsort.
    apply plan_of_sorted.
    + rewrite <- Hsort. apply sort_by_page_sorted.
    + intros b Hb. apply Hin. apply sort_by_page_In.
      rewrite Hsort. exact Hb.
  - apply plan_names_NoDup.
Qed.

Lemma files_cover_from_first_bookmark_example :
  List.concat
    (map file_pages
       (written (perform_pdf_split never_fails
                   ["p1"; "p2"; "p3"; "p4"; "p5"]
                   (calculate_page_ranges
                      [mkBookmark "B" 3 "B"; mkBookmark "A" 1 "A"]
                      (Z.of_nat
                         (List.length ["p1"; "p2"; "p3"; "p4"; "p5"])))
                   "out" true 1)))
  = skipn (Z.to_nat (page_index (mkBookmark "A" 1 "A")))
          ["p1"; "p2"; "p3"; "p4"; "p5"]
  /\ reported (perform_pdf_split never_fails
                 ["p1"; "p2"; "p3"; "p4"; "p5"]
                 (calculate_page_ranges
                    [mkBookmark "B" 3 "B"; mkBookmark "A" 1 "A"]
                    (Z.of_nat (List.length ["p1"; "p2"; "p3"; "p4"; "p5"])))
                 "out" true 1)
     = []
  /\ NoDup (map filename
              (written (perform_pdf_split never_fails
                          ["p1"; "p2"; "p3"; "p4"; "p5"]
                          (calculate_page_ranges
                             [mkBookmark "B" 3 "B"; mkBookmark "A" 1 "A"]
                             (Z.of_nat
                                (List.length ["p1"; "p2"; "p3"; "p4"; "p5"])))
                          "out" true 1))).
Proof.
  apply (files_cover_from_first_bookmark string string never_fails
           ["p1"; "p2"; "p3"; "p4"; "p5"]
           [mkBookmark "B" 3 "B"; mkBookmark "A" 1 "A"] "out" 1
           (mkBookmark "A" 1 "A") [mkBookmark "B" 3 "B"]).
  - reflexivity.
  - simpl. intros b [<-|[<-|[]]]; simpl; lia.
  - reflexivity.
Defined.

(** ** Induction along the outline walk *)

Section WalkInduction.

Variable PageRef : Type.
Variable get_page_number : PageRef -> Resolution.
Variable max_level : Z.

Local Abbreviation info := (get_pdf_outline_info get_page_number).

Lemma OutlineItem_forall_ind (P : OutlineItem PageRef -> Prop) :
  (forall t p, P (Destination t p)) ->
  (forall items, Forall P items -> P (SubOutline items)) ->
  forall it, P it.
Proof.
  intros Hd Hs. fix IH 1. intros [t p|items].
  - apply Hd.
  - apply Hs. induction items as [|it items IHitems]; constructor.
    + apply IH.
    + exact IHitems.
Qed.

(** A property of the result holds for every outline once it holds
    along each turn of the loop. *)
Lemma info_ind
    (R : list (OutlineItem PageRef) -> Z -> string -> Flat -> Prop) :
  (forall lvl parent, R [] lvl parent ([], [])) ->
  (forall cs rest lvl parent r,
      R rest lvl parent r -> R (SubOutline cs :: rest) lvl parent r) ->
  (forall t p e rest lvl parent r,
      get_page_number p = Raises e ->
      R rest lvl parent r ->
      R (Destination t p :: rest) lvl parent
        (flat_app ([], [InvalidBookmark t e]) r)) ->
  (forall t p pg rest lvl parent r,
      get_page_number p = Returns pg ->
      no_leading_sub rest ->
      R rest lvl parent r ->
      R (Destination t p :: rest) lvl parent
        (flat_app ([mkEntry t pg (join_path parent t)], []) r)) ->
  (forall t p pg cs rest lvl parent rc r,
      get_page_number p = Returns pg ->
      may_descend lvl max_level = true ->
      R cs (lvl + 1) (join_path parent t) rc ->
      R rest lvl parent r ->
      R (Destination t p :: SubOutline cs :: rest) lvl parent
        (flat_app ([mkEntry t pg (join_path parent t)], []) (flat_app rc r))) ->
  (forall t p pg cs rest lvl parent r,
      get_page_number p = Returns pg ->
      may_descend lvl max_level = false ->
      R rest lvl parent r ->
      R (Destination t p :: SubOutline cs :: rest) lvl parent
        (flat_app ([mkEntry t pg (join_path parent t)], [])
                  (flat_app ([], []) r))) ->
  forall outline lvl parent,
    R outline lvl parent (info outline lvl max_level parent).
Proof.
  intros Hnil Hsub Hraise Hleaf Hnode Hcut outline.
  change (match SubOutline outline with
          | Destination _ _ => True
          | SubOutline l =>
              forall lvl parent, R l lvl parent (info l lvl max_level parent)
          end).
  induction (SubOutline outline) as [t p|items Hitems]
    using OutlineItem_forall_ind; [exact I|].
  clear outline.
  remember (List.length items) as n eqn:Hn.
  assert (Hle : (List.length items <= n)%nat) by lia. clear Hn.
  revert items Hitems Hle.
  induction n as [|n IH]; intros items Hitems Hle lvl parent.
  - destruct items; [apply Hnil | cbn in Hle; lia].
  - destruct items as [|[t p|cs] rest]; [apply Hnil| |].
    + cbn [List.length] in Hle.
      inversion Hitems as [|? ? _ Hrest]; subst.
      destruct (get_page_number p) as [pg|e] eqn:Hp.
      * destruct rest as [|[t' p'|cs] rest'].
        -- rewrite (info_leaf _ _ _ t p pg [] lvl parent Hp I).
           apply Hleaf; [exact Hp | exact I | apply Hnil].
        -- rewrite (info_leaf _ _ _ t p pg (Destination t' p' :: rest')
                      lvl parent Hp I).
           apply Hleaf; [exact Hp | exact I | apply IH; [exact Hrest | lia]].
        -- inversion Hrest as [|? ? Hcs Hrest']; subst.
           cbn [List.length] in Hle.
           rewrite (info_node _ _ _ t p pg cs rest' lvl parent Hp).
           destruct (may_descend lvl max_level) eqn:Hmd.
           ++ apply Hnode; [exact Hp | exact Hmd | apply Hcs |].
              apply IH; [exact Hrest' | lia].
           ++ apply Hcut; [exact Hp | exact Hmd |].
              apply IH; [exact Hrest' | lia].
      * rewrite (info_raises _ _ _ t p e rest lvl parent Hp).
        apply Hraise; [exact Hp | apply IH; [exact Hrest | lia]].
    + cbn [List.length] in Hle.
      inversion Hitems as [|? ? _ Hrest]; subst.
      rewrite info_sub. apply Hsub. apply IH; [exact Hrest | lia].
Qed.

End WalkInduction.

(** ** More on [get_pdf_outline_info] *)

Section WalkFacts.

Variable PageRef : Type.
Variable get_page_number : PageRef -> Resolution.
Variable max_level : Z.

Local Abbreviation info := (get_pdf_outline_info get_page_number).

Lemma filter_destinations_no_leading_sub (l : list (OutlineItem PageRef)) :
  no_leading_sub (filter is_destination l).
Proof.
  induction l as [|[t p|cs] l IH]; cbn [filter is_destination].
  - exact I.
  - exact I.
  - exact IH.
Qed.

Lemma flat_app_fst (a b : Flat) : fst (flat_app a b) = fst a ++ fst b.
Proof. reflexivity. Qed.

Lemma flat_app_snd (a b : Flat) : snd (flat_app a b) = snd a ++ snd b.
Proof. reflexivity. Qed.

(** X11.  Once the level limit is reached ([max_level] not 0 and not
    above the current level, as with the default limit 1 at the top
    level, or any negative limit), nested lists contribute nothing: the
    result is that of the destinations of the list alone, and every
    entry is named by joining the given parent path and its own title. *)
Theorem limit_reached_ignores_nested (outline : list (OutlineItem PageRef))
    (lvl : Z) (parent : string) :
  max_level <> 0 ->
  max_level <= lvl ->
  info outline lvl max_level parent
  = info (filter is_destination outline) lvl max_level parent
  /\ Forall (fun e => entry_full_path_name e
                      = join_path parent (entry_title e))
            (fst (info outline lvl max_level parent)).
Proof.
  intros Hne Hle. revert Hle.
  apply (info_ind PageRef get_page_number max_level
           (fun outline lvl parent r =>
              max_level <= lvl ->
              r = info (filter is_destination outline) lvl max_level parent
              /\ Forall (fun e => entry_full_path_name e
                                  = join_path parent (entry_title e))
                        (fst r))).
  - intros; split; [reflexivity | constructor].
  - intros cs rest l0 par r IH Hl. exact (IH Hl).
  - intros t p e rest l0 par r Hp IH Hl. destruct (IH Hl) as [-> HF].
    cbn [filter is_destination].
    rewrite (info_raises _ _ _ t p e _ l0 par Hp). split; [reflexivity|].
    rewrite flat_app_fst. exact HF.
  - intros t p pg rest l0 par r Hp _ IH Hl. destruct (IH Hl) as [-> HF].
    cbn [filter is_destination].
    rewrite (info_leaf _ _ _ t p pg _ l0 par Hp
               (filter_destinations_no_leading_sub rest)).
    split; [reflexivity|].
    rewrite flat_app_fst. constructor; [reflexivity | exact HF].
  - intros t p pg cs rest l0 par rc r _ Hmd _ _ Hl.
    unfold may_descend in Hmd. apply orb_true_iff in Hmd.
    destruct Hmd as [H|H]; [apply Z.eqb_eq in H | apply Z.ltb_lt in H]; lia.
  - intros t p pg cs rest l0 par r Hp _ IH Hl. destruct (IH Hl) as [-> HF].
    cbn [filter is_destination].
    rewrite (info_leaf _ _ _ t p pg _ l0 par Hp
               (filter_destinations_no_leading_sub rest)).
    rewrite flat_app_nil_l. split; [reflexivity|].
    rewrite flat_app_fst. constructor; [reflexivity | exact HF].
Qed.

(** X12.  Every destination of the outline gives at most one entry or
    one diagnostic: entries and diagnostics together are no more than
    the destinations, nested ones included. *)
Theorem at_most_one_result_per_destination
    (outline : list (OutlineItem PageRef)) (lvl : Z) (parent : string) :
  (List.length (fst (info outline lvl max_level parent))
   + List.length (snd (info outline lvl max_level parent))
   <= list_sum (map count_destinations outline))%nat.
Proof.
  apply (info_ind PageRef get_page_number max_level
           (fun outline _ _ r =>
              (List.length (fst r) + List.length (snd r)
               <= list_sum (map count_destinations outline))%nat)).
  - intros. cbn. lia.
  - intros cs rest _ _ r IH. unfold list_sum in *. cbn [map fold_right]. lia.
  - intros t p e rest _ _ r _ IH.
    rewrite flat_app_fst, flat_app_snd. cbn [map count_destinations]. unfold list_sum in *. cbn [fold_right].
    cbn [fst snd app List.length]. lia.
  - intros t p pg rest _ par r _ _ IH.
    rewrite flat_app_fst, flat_app_snd. cbn [map count_destinations]. unfold list_sum in *. cbn [fold_right].
    cbn [fst snd app List.length]. lia.
  - intros t p pg cs rest _ par rc r _ _ IHc IH.
    rewrite !flat_app_fst, !flat_app_snd, !length_app.
    cbn [map count_destinations]. unfold list_sum in *. cbn [fold_right].
    cbn [fst snd app List.length]. lia.
  - intros t p pg cs rest _ par r _ _ IH.
    rewrite !flat_app_fst, !flat_app_snd.
    cbn [map count_destinations]. unfold list_sum in *. cbn [fold_right].
    cbn [fst snd app List.length]. lia.
Qed.

Lemma info_provenance (outline : list (OutlineItem PageRef)) (lvl : Z)
    (parent : string) :
  Forall (fun e => exists p, get_page_number p = Returns (entry_page_index e))
         (fst (info outline lvl max_level parent))
  /\ Forall (fun d => exists t p e,
                 d = InvalidBookmark t e /\ get_page_number p = Raises e)
            (snd (info outline lvl max_level parent)).
Proof.
  apply (info_ind PageRef get_page_number max_level
           (fun _ _ _ r =>
              Forall (fun e => exists p,
                          get_page_number p = Returns (entry_page_index e))
                     (fst r)
              /\ Forall (fun d => exists t p e,
                             d = InvalidBookmark t e
                             /\ get_page_number p = Raises e)
                        (snd r))).
  - intros. split; constructor.
  - intros cs rest _ _ r IH. exact IH.
  - intros t p e rest _ _ r Hp [IH1 IH2].
    rewrite flat_app_fst, flat_app_snd. split; [exact IH1|].
    constructor; [|exact IH2]. exists t, p, e. split; [reflexivity | exact Hp].
  - intros t p pg rest _ par r Hp _ [IH1 IH2].
    rewrite flat_app_fst, flat_app_snd. split; [|exact IH2].
    constructor; [|exact IH1]. exists p. exact Hp.
  - intros t p pg cs rest _ par rc r Hp _ [IHc1 IHc2] [IH1 IH2].
    rewrite !flat_app_fst, !flat_app_snd. cbn [fst snd app]. split.
    + constructor; [exists p; exact Hp|].
      apply Forall_app. split; assumption.
    + apply Forall_app. split; assumption.
  - intros t p pg cs rest _ par r Hp _ [IH1 IH2].
    rewrite !flat_app_fst, !flat_app_snd. split; [|exact IH2].
    constructor; [exists p; exact Hp | exact IH1].
Qed.


End WalkFacts.

Lemma limit_reached_ignores_nested_example :
  get_pdf_outline_info broken_at_99
    [Destination "A" 0%nat; SubOutline [Destination "A.1" 2%nat];
     Destination "B" 5%nat] 1 1 ""
  = get_pdf_outline_info broken_at_99
      (filter is_destination
         [Destination "A" 0%nat; SubOutline [Destination "A.1" 2%nat];
          Destination "B" 5%nat]) 1 1 ""
  /\ Forall (fun e => entry_full_path_name e = join_path "" (entry_title e))
            (fst (get_pdf_outline_info broken_at_99
                    [Destination "A" 0%nat;
                     SubOutline [Destination "A.1" 2%nat];
                     Destination "B" 5%nat] 1 1 "")).
Proof.
  apply (limit_reached_ignores_nested nat broken_at_99 1
           [Destination "A" 0%nat; SubOutline [Destination "A.1" 2%nat];
            Destination "B" 5%nat] 1 "").
  - discriminate.
  - lia.
Defined.

(** ** More on the walk of a tree *)

Section TreeDepth.

Variable PageRef : Type.
Variable resolve : PageRef -> option Z.

Lemma walk_of_forest (max_level : Z) (forest : list (OutlineNode PageRef))
    (lvl : Z) (parent : string) :
  get_pdf_outline_info (fun p => Returns (resolve p)) (encode_forest forest)
                       lvl max_level parent
  = (preorder_forest resolve max_level forest lvl parent, []).
Proof.
  apply forest_is_preorder.
  apply Forall_forall. intros n _. apply node_is_preorder.
Qed.

Lemma flat_map_ext_Forall {A B : Type} (f g : A -> list B) (l : list A) :
  Forall (fun x => f x = g x) l -> flat_map f l = flat_map g l.
Proof.
  induction 1 as [|x l Hx _ IH]; cbn [flat_map]; [reflexivity|].
  rewrite Hx, IH. reflexivity.
Qed.

Lemma flat_map_map {A B C : Type} (g : A -> B) (f : B -> list C) (l : list A) :
  flat_map f (map g l) = flat_map (fun x => f (g x)) l.
Proof.
  induction l as [|x l IH]; cbn [map flat_map]; [reflexivity|].
  rewrite IH. reflexivity.
Qed.

Lemma preorder_truncate (max_level : Z) (n : OutlineNode PageRef) :
  max_level <> 0 ->
  forall lvl parent,
    preorder resolve max_level n lvl parent
    = preorder resolve 0 (truncate (Z.to_nat (max_level - lvl)) n) lvl parent.
Proof.
  intros Hne.
  induction n as [t p cs Hcs] using OutlineNode_forall_ind.
  intros lvl parent.
  assert (Hmd : may_descend lvl max_level = (lvl <? max_level)).
  { unfold may_descend.
    replace (max_level =? 0) with false
      by (symmetry; apply Z.eqb_neq; exact Hne).
    reflexivity. }
  destruct (lvl <? max_level) eqn:Hlt.
  - apply Z.ltb_lt in Hlt.
    replace (Z.to_nat (max_level - lvl))
      with (S (Z.to_nat (max_level - (lvl + 1)))) by lia.
    cbn [preorder truncate]. rewrite Hmd. f_equal.
    change (may_descend lvl 0) with true. cbv iota.
    rewrite flat_map_map. apply flat_map_ext_Forall.
    eapply Forall_impl; [|exact Hcs].
    intros c Hc. apply Hc.
  - apply Z.ltb_ge in Hlt.
    replace (Z.to_nat (max_level - lvl)) with 0%nat by lia.
    cbn [preorder truncate]. rewrite Hmd.
    destruct (may_descend lvl 0); reflexivity.
Qed.

(** X14.  With every target resolvable, a level limit other than 0 gives
    the result that the unlimited walk gives on the tree cut below the
    allowed levels: nodes below the limit are left out together with
    everything under them, and nothing else changes. *)
Theorem limit_is_truncation (max_level : Z)
    (forest : list (OutlineNode PageRef)) (lvl : Z) (parent : string) :
  max_level <> 0 ->
  get_pdf_outline_info (fun p => Returns (resolve p)) (encode_forest forest)
                       lvl max_level parent
  = get_pdf_outline_info (fun p => Returns (resolve p))
      (encode_forest (map (truncate (Z.to_nat (max_level - lvl))) forest))
      lvl 0 parent.
Proof.
  intros Hne. rewrite !walk_of_forest. f_equal.
  unfold preorder_forest. rewrite flat_map_map.
  apply flat_map_ext_Forall, Forall_forall.
  intros n _. apply preorder_truncate. exact Hne.
Qed.

Lemma preorder_length (n : OutlineNode PageRef) :
  forall lvl parent,
    List.length (preorder resolve 0 n lvl parent) = node_count n.
Proof.
  induction n as [t p cs Hcs] using OutlineNode_forall_ind.
  intros lvl parent. cbn [preorder node_count List.length]. f_equal.
  unfold may_descend. cbn [Z.eqb orb].
  generalize (lvl + 1) (join_path parent t). intros lvl' parent'.
  induction Hcs as [|c cs Hc _ IH]; [reflexivity|].
  cbn [flat_map map]. rewrite length_app, Hc, IH. reflexivity.
Qed.

(** X15.  With every target resolvable and no level limit, the walk of
    an encoded tree gives one entry per node and no diagnostic. *)
Theorem unlimited_walk_visits_every_node
    (forest : list (OutlineNode PageRef)) (lvl : Z) (parent : string) :
  List.length
    (fst (get_pdf_outline_info (fun p => Returns (resolve p))
            (encode_forest forest) lvl 0 parent))
  = list_sum (map node_count forest)
  /\ snd (get_pdf_outline_info (fun p => Returns (resolve p))
            (encode_forest forest) lvl 0 parent)
     = [].
Proof.
  rewrite walk_of_forest. cbn [fst snd]. split; [|reflexivity].
  unfold preorder_forest.
  induction forest as [|n forest IH]; [reflexivity|].
  cbn [flat_map map]. rewrite length_app, preorder_length, IH. reflexivity.
Qed.

End TreeDepth.

Lemma limit_is_truncation_example :
  get_pdf_outline_info (fun p => Returns (Some p))
    (encode_forest
       [Node "A" 0 [Node "A.1" 2 [Node "A.1.1" 3 []]]; Node "B" 5 []])
    1 2 ""
  = get_pdf_outline_info (fun p => Returns (Some p))
      (encode_forest
         (map (truncate (Z.to_nat (2 - 1)))
              [Node "A" 0 [Node "A.1" 2 [Node "A.1.1" 3 []]]; Node "B" 5 []]))
      1 0 "".
Proof.
  apply (limit_is_truncation Z Some 2
           [Node "A" 0 [Node "A.1" 2 [Node "A.1.1" 3 []]]; Node "B" 5 []] 1 "").
  discriminate.
Defined.

(** ** The sort as a whole *)

(** X16.  Sorting the bookmarks by page rearranges the list into
    non-decreasing page order and keeps the bookmarks of any one page in
    the order they had. *)
Theorem sort_by_page_stable_sort (l : list Bookmark) :
  Sorted page_le (sort_by_page l)
  /\ Permutation l (sort_by_page l)
  /\ forall k, filter (fun b => page_index b =? k) (sort_by_page l)
               = filter (fun b => page_index b =? k) l.
Proof.
  split; [apply sort_by_page_sorted|].
  split; [apply sort_by_page_perm|].
  intros k. apply sort_by_page_stable.
Qed.

(** ** [split_pdf_by_chapters] as a whole *)

Lemma calculate_page_ranges_nonempty (outline_info : list Bookmark)
    (total_pages : Z) :
  outline_info <> [] ->
  calculate_page_ranges outline_info total_pages <> [].
Proof.
  intros Hne.
  destruct (exists_last (sort_by_page_nonempty outline_info Hne))
    as (front & final & Hsort).
  rewrite calculate_page_ranges_rec, Hsort.
  destruct (ranges_from_final front final total_pages) as [sections ->].
  intros H. apply app_eq_nil in H. destruct H as [_ H]. discriminate H.
Qed.

Lemma resolved_bookmarks_In (entries : list OutlineEntry) (b : Bookmark) :
  In b (resolved_bookmarks entries) ->
  exists e, In e entries /\ entry_page_index e = Some (page_index b).
Proof.
  unfold resolved_bookmarks. rewrite in_flat_map.
  intros (e & He & Hb). exists e. split; [exact He|].
  destruct (entry_page_index e) as [pg|]; [|destruct Hb].
  destruct Hb as [<-|[]]. reflexivity.
Qed.

Section PipelineFacts.

Variable Page : Type.
Variable PageRef : Type.
Variable Path : Type.
Variable dirname : Path -> Path.
Variable basename : Path -> Path.
Variable splitext_root : Path -> Path.
Variable join : Path -> Path -> Path.
Variable fs : FileSystem Path.

Local Abbreviation run :=
  (split_pdf_by_chapters (Page := Page) (PageRef := PageRef)
     dirname basename splitext_root join fs).

(** X17.  A run never ends with the message that no section was found:
    once a bookmark has a page, there is a section.  It reaches the
    split, whether the split is carried through or ends with an
    exception, exactly when the file exists and is read and at least one
    bookmark of the flattened outline has a page. *)
Theorem split_reached_iff_bookmark_resolved (pdf_path : Path)
    (opened : Opening Page PageRef) (output_dir : option Path)
    (add_sequence : bool) (max_level : Z) :
  fst (run pdf_path opened output_dir add_sequence max_level) <> NoSections
  /\ ((exists dir files,
          fst (run pdf_path opened output_dir add_sequence max_level)
          = SplitDone dir files
          \/ exists err,
               fst (run pdf_path opened output_dir add_sequence max_level)
               = SplitFailed dir files err)
      <-> exists reader,
            opened = Opened reader
            /\ resolved_bookmarks
                 (fst (get_pdf_outline_info (reader_get_page_number reader)
                         (reader_outline reader) 1 max_level ""))
               <> []).
Proof.
  unfold split_pdf_by_chapters.
  destruct opened as [|err|reader].
  1,2: split; [discriminate|]; split;
    [ intros (dir & files & [H|[e H]]); discriminate H
    | intros (reader & H & _); discriminate H ].
  destruct (reader_outline reader) as [|it outline] eqn:Ho.
  { split; [discriminate|]. split.
    - intros (dir & files & [H|[e H]]); discriminate H.
    - intros (reader' & H & Hne). inversion H; subst reader'.
      rewrite Ho in Hne. exfalso. apply Hne. reflexivity. }
  destruct (resolved_bookmarks _) as [|b bs] eqn:Hr.
  { split; [discriminate|]. split.
    - intros (dir & files & [H|[e H]]); discriminate H.
    - intros (reader' & H & Hne). inversion H; subst reader'.
      rewrite Ho, Hr in Hne. exfalso. apply Hne. reflexivity. }
  pose proof (calculate_page_ranges_nonempty (b :: bs)
                (Z.of_nat (List.length (reader_pages reader)))
                ltac:(discriminate)) as Hne.
  destruct (calculate_page_ranges (b :: bs) _) as [|s ss]; [contradiction|].
  destruct (raised _) as [err|]; cbn [fst].
  - split; [discriminate|]. split.
    + intros _. exists reader. split; [reflexivity|].
      rewrite Ho, Hr. discriminate.
    + intros _. eexists _, _. right. eexists. reflexivity.
  - split; [discriminate|]. split.
    + intros _. exists reader. split; [reflexivity|].
      rewrite Ho, Hr. discriminate.
    + intros _. eexists _, _. left. reflexivity.
Qed.

(** X18.  With the sequence prefix, when the resolver only returns page
    indices inside the document (or no page), a run whose split is
    carried through without an exception skips no section: the only
    diagnostics are those of the outline walk, the files have pairwise
    different names, and they hold, one after the other, every page from
    the first bookmarked page to the end of the document, each once and
    in order. *)
Theorem run_covers_from_first_bookmark (pdf_path : Path)
    (reader : PdfReader Page PageRef) (output_dir : option Path)
    (max_level : Z) (dir : Path) (files : list (OutputFile Page)) :
  (forall p pg,
      reader_get_page_number reader p = Returns (Some pg) ->
      0 <= pg < Z.of_nat (List.length (reader_pages reader))) ->
  fst (run pdf_path (Opened reader) output_dir true max_level)
  = SplitDone dir files ->
  exists first rest,
    sort_by_page
      (resolved_bookmarks
         (fst (get_pdf_outline_info (reader_get_page_number reader)
                 (reader_outline reader) 1 max_level "")))
    = first :: rest
    /\ List.concat (map file_pages files)
       = skipn (Z.to_nat (page_index first)) (reader_pages reader)
    /\ NoDup (map filename files)
    /\ snd (run pdf_path (Opened reader) output_dir true max_level)
       = snd (get_pdf_outline_info (reader_get_page_number reader)
                (reader_outline reader) 1 max_level "").
Proof.
  intros Hrange. unfold split_pdf_by_chapters.
  destruct (reader_outline reader) as [|it outline] eqn:Ho; [discriminate|].
  rewrite <- Ho.
  set (flat := get_pdf_outline_info (reader_get_page_number reader)
                 (reader_outline reader) 1 max_level "").
  assert (Hb : forall b, In b (resolved_bookmarks (fst flat)) ->
                 0 <= page_index b < Z.of_nat (List.length (reader_pages reader))).
  { intros b Hin. apply resolved_bookmarks_In in Hin.
    destruct Hin as (e & He & Hpage).
    destruct (info_provenance PageRef (reader_get_page_number reader)
                max_level (reader_outline reader) 1 "") as [Hent _].
    rewrite Forall_forall in Hent. destruct (Hent e He) as (p & Hp).
    rewrite Hpage in Hp. exact (Hrange p _ Hp). }
  destruct (resolved_bookmarks (fst flat)) as [|b bs] eqn:Hr; [discriminate|].
  destruct (sort_by_page (b :: bs)) as [|first rest] eqn:Hsort.
  { exfalso. apply (sort_by_page_nonempty (b :: bs)); [discriminate|exact Hsort]. }
  assert (Hs : Sorted page_le (first :: rest))
    by (rewrite <- Hsort; apply sort_by_page_sorted).
  assert (Hb' : forall x, In x (first :: rest) ->
                  0 <= page_index x
                  < Z.of_nat (List.length (reader_pages reader)))
    by (intros x Hx; apply Hb, sort_by_page_In; rewrite Hsort; exact Hx).
  destruct (plan_of_sorted Page (reader_pages reader) true
              max_level first rest Hs Hb') as [Hfiles Hlog].
  rewrite (calculate_page_ranges_rec (b :: bs)), Hsort.
  destruct (ranges_from (first :: rest) _) as [|s ss] eqn:Hc;
    [discriminate|].
  destruct (raised _) as [err|] eqn:Hraised; cbn [fst snd]; [discriminate|].
  destruct (completed_run_is_plan Page Path fs (reader_pages reader) _ _ true
              max_level Hraised) as [Hw Hrep].
  intros H. inversion H; subst dir files.
  exists first, rest. split; [reflexivity|].
  rewrite Hw, Hrep, Hlog. split; [exact Hfiles|]. split.
  - apply plan_names_NoDup.
  - apply app_nil_r.
Qed.

End PipelineFacts.

Lemma run_covers_from_first_bookmark_example :
  exists first rest,
    sort_by_page
      (resolved_bookmarks
         (fst (get_pdf_outline_info
                 (reader_get_page_number
                    (mkReader ["p1"; "p2"; "p3"; "p4"]
                       [Destination "A" 1%nat; Destination "B" 3%nat]
                       within_4))
                 (reader_outline
                    (mkReader ["p1"; "p2"; "p3"; "p4"]
                       [Destination "A" 1%nat; Destination "B" 3%nat]
                       within_4)) 1 1 "")))
    = first :: rest
    /\ List.concat
         (map file_pages
            [mkOutput "1_A.pdf" ["p2"; "p3"]; mkOutput "2_B.pdf" ["p4"]])
       = skipn (Z.to_nat (page_index first))
               (reader_pages
                  (mkReader ["p1"; "p2"; "p3"; "p4"]
                     [Destination "A" 1%nat; Destination "B" 3%nat]
                     within_4))
    /\ NoDup (map filename
                [mkOutput "1_A.pdf" ["p2"; "p3"]; mkOutput "2_B.pdf" ["p4"]])
    /\ snd (split_pdf_by_chapters (fun d : string => d) (fun d => d)
              (fun d => d) append never_fails "book"
              (Opened (mkReader ["p1"; "p2"; "p3"; "p4"]
                         [Destination "A" 1%nat; Destination "B" 3%nat]
                         within_4))
              None true 1)
       = snd (get_pdf_outline_info
                (reader_get_page_number
                   (mkReader ["p1"; "p2"; "p3"; "p4"]
                      [Destination "A" 1%nat; Destination "B" 3%nat]
                      within_4))
                (reader_outline
                   (mkReader ["p1"; "p2"; "p3"; "p4"]
                      [Destination "A" 1%nat; Destination "B" 3%nat]
                      within_4)) 1 1 "").
Proof.
  apply (run_covers_from_first_bookmark string nat string
           (fun d => d) (fun d => d) (fun d => d) append never_fails "book"
           (mkReader ["p1"; "p2"; "p3"; "p4"]
              [Destination "A" 1%nat; Destination "B" 3%nat] within_4)
           None 1 "bookbook"
           [mkOutput "1_A.pdf" ["p2"; "p3"]; mkOutput "2_B.pdf" ["p4"]]).
  - cbn [reader_get_page_number reader_pages List.length].
    intros p pg. unfold within_4.
    destruct (p <? 4)%nat eqn:E; [|discriminate].
    intros H. inversion H; subst pg. apply Nat.ltb_lt in E. lia.
  - vm_compute. reflexivity.
Defined.

(** An input path without extension: the output directory is the input
    file itself, [os.makedirs] raises, and nothing is written. *)
Example output_directory_is_the_input_file :
  split_pdf_by_chapters (fun _ : string => "") (fun d => d) (fun d => d)
    append output_dir_taken "book"
    (Opened (mkReader ["p1"; "p2"; "p3"; "p4"]
               [Destination "A" 1%nat; Destination "B" 3%nat] within_4))
    None true 1
  = (SplitFailed "book" [] "File exists", []).
Proof. vm_compute. reflexivity. Qed.

(** ** Splitting the walk *)

(** X19.  The walk of a list splits wherever no nested list follows:
    when [rest] is empty or starts with a destination, the result for
    [pre ++ rest] is the result for [pre] followed by the result for
    [rest], so what comes before has no influence on what comes after. *)
Theorem walk_splits_before_destination (PageRef : Type)
    (get_page_number : PageRef -> Resolution) (max_level : Z)
    (pre rest : list (OutlineItem PageRef)) (lvl : Z) (parent : string) :
  no_leading_sub rest ->
  get_pdf_outline_info get_page_number (pre ++ rest) lvl max_level parent
  = flat_app
      (get_pdf_outline_info get_page_number pre lvl max_level parent)
      (get_pdf_outline_info get_page_number rest lvl max_level parent).
Proof.
  intros Hrest. destruct rest as [|[t p|cs] rest].
  - rewrite app_nil_r, info_nil, flat_app_nil_r. reflexivity.
  - apply info_app_destination.
  - destruct Hrest.
Qed.

Lemma walk_splits_before_destination_example :
  get_pdf_outline_info broken_at_99
    ([Destination "A" 0%nat; SubOutline [Destination "A.1" 2%nat]]
     ++ [Destination "B" 5%nat]) 1 0 ""
  = flat_app
      (get_pdf_outline_info broken_at_99
         [Destination "A" 0%nat; SubOutline [Destination "A.1" 2%nat]] 1 0 "")
      (get_pdf_outline_info broken_at_99 [Destination "B" 5%nat] 1 0 "").
Proof.
  apply (walk_splits_before_destination nat broken_at_99 0
           [Destination "A" 0%nat; SubOutline [Destination "A.1" 2%nat]]
           [Destination "B" 5%nat] 1 "").
  exact I.
Defined.
